(* Verification of examples/relation_classification/utils.py:
   the example builder (DatasetProcessor._create_examples), the label
   vocabulary (DatasetProcessor.get_label_list) and the feature encoder
   (convert_examples_to_features).

   Python values are modelled as follows: a str is a Rocq [string] (ASCII
   code points), a list is a [list], an int used as an index or length is a
   [nat] (the dataset offsets are non-negative), an id is a [Z], a dict with
   string keys is a [gmap string _], a set of strings a [gset string].
   An exception is the [Raise] branch of the [result] monad below. *)

From Stdlib Require Import ZArith Ascii.
From Stdlib Require String.
From stdpp Require Import base list gmap strings sorting.

Open Scope nat_scope.

(* ------------------------------------------------------------------ *)
(** * Python helpers *)

(** Python's [str.isspace] on ASCII code points: \t \n \v \f \r,
    the separators \x1c..\x1f, and the space. *)
Definition py_isspace (c : ascii) : bool :=
  let n := nat_of_ascii c in
  ((9 <=? n) && (n <=? 13)) || ((28 <=? n) && (n <=? 32)).

(** [s.rstrip()]: drop all trailing whitespace. *)
Fixpoint rstrip (s : string) : string :=
  match s with
  | String.EmptyString => String.EmptyString
  | String.String c s' =>
      let r := rstrip s' in
      if String.eqb r "" && py_isspace c then "" else String.String c r
  end.

(** [sep.join(l)]. *)
Definition join (sep : string) (l : list string) : string := String.concat sep l.

(** List slicing [l[a:b]] and [l[a:]] for non-negative [a], [b]. *)
Definition list_slice {A} (l : list A) (a b : nat) : list A := take (b - a) (drop a l).

(** String slicing [s[a:b]] and [s[a:]] for non-negative [a], [b]. *)
Definition str_slice (s : string) (a b : nat) : string := String.substring a (b - a) s.
Definition str_from (s : string) (a : nat) : string :=
  String.substring a (String.length s - a) s.

(** Decimal rendering of a non-negative int, as [str(i)] / ['%s' % i]. *)
Fixpoint digits_aux (fuel n : nat) (acc : string) : string :=
  match fuel with
  | O => acc
  | S fuel' =>
      let d := String.String (ascii_of_nat (48 + n mod 10)) "" in
      if n <? 10 then d +:+ acc else digits_aux fuel' (n / 10) (d +:+ acc)
  end.
Definition str_of_nat (n : nat) : string := digits_aux (S n) n "".

(** Exceptions raised by the code: a dict lookup of a missing key. *)
Inductive exn := KeyError (key : string).

Inductive result (A : Type) := Ok (a : A) | Raise (e : exn).
Arguments Ok {A} a.
Arguments Raise {A} e.

Definition bind {A B} (m : result A) (k : A -> result B) : result B :=
  match m with Ok a => k a | Raise e => Raise e end.
Notation "'let*' x ':=' m 'in' k" := (bind m (fun x => k))
  (at level 200, x name, m at level 100, k at level 200).

(** [d[k]] on a dict: [KeyError] when the key is absent. *)
Definition getitem {V} (d : gmap string V) (k : string) : result V :=
  match d !! k with Some v => Ok v | None => Raise (KeyError k) end.

(** A [for] loop appending to a list, aborted by the first exception. *)
Fixpoint mapM {A B} (f : A -> result B) (l : list A) : result (list B) :=
  match l with
  | [] => Ok []
  | x :: l' => let* y := f x in let* ys := mapM f l' in Ok (y :: ys)
  end.

(* ------------------------------------------------------------------ *)
(** * Data model *)

Definition ENTITY_TYPES : list string :=
  ["CAUSE_OF_DEATH"; "CITY"; "COUNTRY"; "CRIMINAL_CHARGE"; "DATE"; "DURATION"; "IDEOLOGY";
   "LOCATION"; "MISC"; "NATIONALITY"; "NUMBER"; "ORGANIZATION"; "PERSON"; "RELIGION";
   "STATE_OR_PROVINCE"; "TITLE"; "URL"].
Definition HEAD_TOKEN : string := "[HEAD]".
Definition TAIL_TOKEN : string := "[TAIL]".

(** One JSON record of a split file. *)
Module Item.
Record t := mk {
  token : list string;
  subj_start : nat; subj_end : nat;
  obj_start : nat; obj_end : nat;
  subj_type : string; obj_type : string;
  relation : string }.
End Item.

Module InputExample.
Record t := mk {
  id_ : string;
  text : string;
  span_a : nat * nat;
  span_b : nat * nat;
  type_a : string;
  type_b : string;
  label : string }.
End InputExample.

Module InputFeatures.
Record t := mk {
  word_ids : list Z;
  word_segment_ids : list Z;
  word_attention_mask : list Z;
  entity_ids : list Z;
  entity_position_ids : list (list Z);
  entity_segment_ids : list Z;
  entity_attention_mask : list Z;
  label : nat }.
End InputFeatures.

(* ------------------------------------------------------------------ *)
(** * DatasetProcessor._create_examples *)

(** The two keys of the dicts [token_spans] and [char_spans]. *)
Inductive entity := subj | obj.

Definition entity_eqb (x y : entity) : bool :=
  match x, y with subj, subj | obj, obj => true | _, _ => false end.

(** [char_spans[e][i] = v] on the dict of two-element lists. The lists
    start as [[None, None]]; both entries of both keys are overwritten by
    the loop (its order names both keys), so the initial value is never
    observed and is written [(0, 0)] here. *)
Definition set_start (cs : entity -> nat * nat) (e : entity) (v : nat) :=
  fun x => if entity_eqb x e then (v, snd (cs x)) else cs x.
Definition set_end (cs : entity -> nat * nat) (e : entity) (v : nat) :=
  fun x => if entity_eqb x e then (fst (cs x), v) else cs x.

Definition token_spans_of (item : Item.t) (e : entity) : nat * nat :=
  match e with
  | subj => (Item.subj_start item, Item.subj_end item + 1)
  | obj => (Item.obj_start item, Item.obj_end item + 1)
  end.

Definition entity_order (item : Item.t) : list entity :=
  if fst (token_spans_of item subj) <? fst (token_spans_of item obj)
  then [subj; obj] else [obj; subj].

(** One iteration of [for target_entity in entity_order]; the state is
    [(text, cur, char_spans)]. *)
Definition build_step (item : Item.t)
    (st : string * nat * (entity -> nat * nat)) (target_entity : entity)
    : string * nat * (entity -> nat * nat) :=
  let '(text, cur, char_spans) := st in
  let tokens := Item.token item in
  let token_span := token_spans_of item target_entity in
  let text := text +:+ join " " (list_slice tokens cur (fst token_span)) in
  let text := if negb (String.eqb text "") then text +:+ " " else text in
  let char_spans := set_start char_spans target_entity (String.length text) in
  let text := text +:+ (join " " (list_slice tokens (fst token_span) (snd token_span)) +:+ " ") in
  let char_spans := set_end char_spans target_entity (String.length text) in
  (text, snd token_span, char_spans).

Definition build_loop (item : Item.t) : string * nat * (entity -> nat * nat) :=
  fold_left (build_step item) (entity_order item) ("", 0, fun _ => (0, 0)).

Definition create_example (set_type : string) (i : nat) (item : Item.t) : InputExample.t :=
  let '(text, cur, char_spans) := build_loop item in
  let text := text +:+ join " " (drop cur (Item.token item)) in
  let text := rstrip text in
  InputExample.mk (set_type +:+ "-" +:+ str_of_nat i) text
    (char_spans subj) (char_spans obj)
    (Item.subj_type item) (Item.obj_type item) (Item.relation item).

(** [_create_examples] after [json.load]: one example per record, in order. *)
Definition create_examples (set_type : string) (data : list Item.t) : list InputExample.t :=
  imap (create_example set_type) data.

(* ------------------------------------------------------------------ *)
(** * DatasetProcessor.get_label_list *)

(** [labels = set(); for example in train: labels.add(example.label);
    labels.discard('no_relation'); return ['no_relation'] + sorted(labels)].
    [sorted] on str is the code-point order, i.e. [String.le]. *)
Definition get_label_list (train_examples : list InputExample.t) : list string :=
  let labels : gset string :=
    foldl (fun (s : gset string) ex => {[ InputExample.label ex ]} ∪ s) ∅ train_examples in
  let labels := labels ∖ {[ "no_relation" ]} in
  "no_relation" :: merge_sort String.le (elements labels).

(* ------------------------------------------------------------------ *)
(** * DatasetProcessor: reading the split files *)

(** A file error, raised by [open] on a missing path. *)
Inductive io_error := FileNotFoundError (path : string).

Inductive io_result (A : Type) := IOk (a : A) | IRaise (e : io_error).
Arguments IOk {A} a.
Arguments IRaise {A} e.

Definition ends_with_slash (a : string) : bool :=
  match String.get (String.length a - 1) a with
  | Some c => Ascii.eqb c "/"
  | None => false
  end.

(** [os.path.join(a, b)] (posixpath): an absolute [b] replaces [a]; a
    separator is inserted unless [a] is empty or already ends with one. *)
Definition os_path_join (a b : string) : string :=
  if String.prefix "/" b then b
  else if String.eqb a "" || ends_with_slash a then a +:+ b
  else a +:+ "/" +:+ b.

(** The file-reading methods of [DatasetProcessor]. The file system is a
    dict from paths to the records [json.load] parses from each file; a
    missing path is the [FileNotFoundError] of [open]. *)
Module DatasetProcessor.

Definition _create_examples (fs : gmap string (list Item.t)) (data_dir set_type : string)
    : io_result (list InputExample.t) :=
  let path := os_path_join data_dir (set_type +:+ ".json") in
  match fs !! path with
  | Some data => IOk (create_examples set_type data)
  | None => IRaise (FileNotFoundError path)
  end.

Definition get_train_examples fs data_dir := _create_examples fs data_dir "train".
Definition get_dev_examples fs data_dir := _create_examples fs data_dir "dev".
Definition get_test_examples fs data_dir := _create_examples fs data_dir "test".

(** The method [get_label_list(data_dir)]; its body calls the vocabulary
    function [get_label_list] defined above on the training examples. *)
Definition get_label_list fs data_dir : io_result (list string) :=
  match get_train_examples fs data_dir with
  | IOk exs => IOk (get_label_list exs)
  | IRaise e => IRaise e
  end.

End DatasetProcessor.

(* ------------------------------------------------------------------ *)
(** * convert_examples_to_features *)

(** The subword tokenizer, an external collaborator: [tokenize text]
    (with the [add_prefix_space] flag), whether it is a [RobertaTokenizer],
    its special tokens and [convert_tokens_to_ids]. *)
Record Tokenizer := {
  tok_tokenize : bool -> string -> list string;
  is_roberta : bool;
  cls_token : string;
  sep_token : string;
  convert_tokens_to_ids : list string -> list Z }.

(** The inner [tokenize] of [convert_examples_to_features]. *)
Definition tokenize (tokenizer : Tokenizer) (text : string) : list string :=
  if is_roberta tokenizer then tok_tokenize tokenizer true text
  else tok_tokenize tokenizer false text.

(** The attribute names ['span_a'] and ['span_b'] used by the loops. *)
Inductive span_name := SpanA | SpanB.

Definition span_name_str (n : span_name) : string :=
  match n with SpanA => "span_a" | SpanB => "span_b" end.

Definition span_name_eqb (x y : span_name) : bool :=
  match x, y with SpanA, SpanA | SpanB, SpanB => true | _, _ => false end.

(** [getattr(example, span_name)]. *)
Definition getattr_span (ex : InputExample.t) (n : span_name) : nat * nat :=
  match n with SpanA => InputExample.span_a ex | SpanB => InputExample.span_b ex end.

(** [HEAD_TOKEN if span_name == 'span_a' else TAIL_TOKEN]. *)
Definition marker (n : span_name) : string :=
  if span_name_eqb n SpanA then HEAD_TOKEN else TAIL_TOKEN.

(** The dict [token_spans]; lookup of the most recent assignment. *)
Fixpoint lookup_span (ts : list (span_name * (nat * nat))) (n : span_name) : result (nat * nat) :=
  match ts with
  | [] => Raise (KeyError (span_name_str n))
  | (m, v) :: ts' => if span_name_eqb m n then Ok v else lookup_span ts' n
  end.

Definition label_map_of (label_list : list string) : gmap string nat :=
  foldl (fun m '(i, l) => <[l := i]> m) ∅ (imap pair label_list).

Definition type_map : gmap string Z :=
  foldl (fun m '(i, t) => <[t := Z.of_nat (i + 1)]> m) ∅ (imap pair ENTITY_TYPES).

Definition span_order (ex : InputExample.t) : list span_name :=
  if snd (InputExample.span_a ex) <? snd (InputExample.span_b ex)
  then [SpanA; SpanB] else [SpanB; SpanA].

Section Encoder.
Variable tokenizer : Tokenizer.
Variable max_mention_length : nat.
Variable use_entity_type_token : bool.
Variable use_marker_token : bool.

(** One iteration of [for span_name in span_order]; the state is
    [(tokens, cur, token_spans)]. *)
Definition encode_step (ex : InputExample.t)
    (st : list string * nat * list (span_name * (nat * nat))) (n : span_name)
    : list string * nat * list (span_name * (nat * nat)) :=
  let '(tokens, cur, token_spans) := st in
  let span := getattr_span ex n in
  let tokens := tokens ++ tokenize tokenizer (str_slice (InputExample.text ex) cur (fst span)) in
  let start := length tokens in
  let tokens := if use_marker_token then tokens ++ [marker n] else tokens in
  let tokens := tokens ++ tokenize tokenizer (str_slice (InputExample.text ex) (fst span) (snd span)) in
  let tokens := if use_marker_token then tokens ++ [marker n] else tokens in
  let token_spans := (n, (start, length tokens)) :: token_spans in
  (tokens, snd span, token_spans).

(** Lines 105-126: the final token sequence and the dict [token_spans]. *)
Definition encode_tokens (ex : InputExample.t) : list string * list (span_name * (nat * nat)) :=
  let '(tokens, cur, token_spans) :=
    fold_left (encode_step ex) (span_order ex) ([cls_token tokenizer], 0, []) in
  let tokens := tokens ++ tokenize tokenizer (str_from (InputExample.text ex) cur) in
  let tokens := tokens ++ [sep_token tokenizer] in
  (tokens, token_spans).

(** [list(range(s, e))[:max_mention_length]
     + [-1] * (max_mention_length - e + s)]. *)
Definition position_ids_of (span : nat * nat) : list Z :=
  take max_mention_length (map Z.of_nat (seq (fst span) (snd span - fst span)))
  ++ repeat (-1)%Z (Z.to_nat (Z.of_nat max_mention_length - Z.of_nat (snd span) + Z.of_nat (fst span))).

(** The body of [for example in tqdm(examples)]. *)
Definition convert_example (label_map : gmap string nat) (ex : InputExample.t)
    : result InputFeatures.t :=
  let '(tokens, token_spans) := encode_tokens ex in
  let word_ids := convert_tokens_to_ids tokenizer tokens in
  let word_attention_mask := repeat 1%Z (length tokens) in
  let word_segment_ids := repeat 0%Z (length tokens) in
  let* entity_ids :=
    (if use_entity_type_token then
       let* ta := getitem type_map (InputExample.type_a ex) in
       let* tb := getitem type_map (InputExample.type_b ex) in
       Ok [ta; tb]
     else Ok [1%Z; 1%Z]) in
  let* entity_position_ids :=
    mapM (fun n => let* span := lookup_span token_spans n in Ok (position_ids_of span))
      [SpanA; SpanB] in
  let entity_segment_ids := [0%Z; 0%Z] in
  let entity_attention_mask := [1%Z; 1%Z] in
  let* label := getitem label_map (InputExample.label ex) in
  Ok (InputFeatures.mk word_ids word_segment_ids word_attention_mask entity_ids
        entity_position_ids entity_segment_ids entity_attention_mask label).

Definition convert_examples_to_features (examples : list InputExample.t)
    (label_list : list string) : result (list InputFeatures.t) :=
  let label_map := label_map_of label_list in
  mapM (convert_example label_map) examples.

End Encoder.

(** A concrete tokenizer for worked examples: splits on spaces, is not a
    RoBERTa tokenizer, and maps each token to its length. *)
Fixpoint split_spaces_aux (s : string) (cur : string) : list string :=
  match s with
  | String.EmptyString => if String.eqb cur "" then [] else [cur]
  | String.String c s' =>
      if Ascii.eqb c " " then
        (if String.eqb cur "" then [] else [cur]) ++ split_spaces_aux s' ""
      else split_spaces_aux s' (cur +:+ String.String c "")
  end.

Definition space_tokenizer : Tokenizer := {|
  tok_tokenize := fun _ s => split_spaces_aux s "";
  is_roberta := false;
  cls_token := "[CLS]";
  sep_token := "[SEP]";
  convert_tokens_to_ids := map (fun t => Z.of_nat (String.length t)) |}.

(** The record of the round-trip example of the spec. *)
Definition john_item : Item.t :=
  Item.mk ["John"; "lives"; "in"; "Paris"] 0 0 3 3 "PERSON" "CITY" "lives_in".

(** A token of a well-formed record: non-empty, no whitespace character. *)
Fixpoint all_nonspace (s : string) : bool :=
  match s with
  | String.EmptyString => true
  | String.String c s' => negb (py_isspace c) && all_nonspace s'
  end.
Definition ok_token (t : string) : Prop := t <> "" /\ all_nonspace t = true.

(** A record whose obj token span starts right after the subj span. *)
Definition adj_item : Item.t :=
  Item.mk ["A"; "B"; "C"] 0 0 1 1 "PERSON" "CITY" "no_relation".

(** A data directory "data" holding the three split files. *)
Definition split_files : gmap string (list Item.t) :=
  <["data/train.json" := [john_item; john_item]]>
  (<["data/dev.json" := [john_item]]> {[ "data/test.json" := [john_item] ]}).

(** The example of [adj_item]. *)
Definition adj_example : InputExample.t := create_example "train" 1 adj_item.

(* ================================================================== *)
(** * Lemmas on strings *)

Module StrFacts.

Lemma app_nil_l (s : string) : "" +:+ s = s.
Proof. reflexivity. Qed.

Lemma app_cons (c : ascii) (s1 s2 : string) :
  String.String c s1 +:+ s2 = String.String c (s1 +:+ s2).
Proof. reflexivity. Qed.

Lemma app_nil_r (s : string) : s +:+ "" = s.
Proof. induction s as [|c s IH]; [done|]. rewrite app_cons, IH. done. Qed.

Lemma app_assoc (a b c : string) : (a +:+ b) +:+ c = a +:+ (b +:+ c).
Proof. induction a as [|x a IH]; [done|]. rewrite !app_cons, IH. done. Qed.

Lemma length_app (a b : string) :
  String.length (a +:+ b) = String.length a + String.length b.
Proof. induction a as [|x a IH]; [done|]. rewrite app_cons. simpl. lia. Qed.

Lemma substring_app_skip (a b : string) (n m : nat) :
  String.substring (String.length a + n) m (a +:+ b) = String.substring n m b.
Proof.
  induction a as [|x a IH]; [done|]. rewrite app_cons. simpl. apply IH.
Qed.

Lemma substring_whole (a : string) (m : nat) :
  String.length a <= m -> String.substring 0 m a = a.
Proof.
  revert m. induction a as [|x a IH]; intros [|m] Hm; simpl in *; try done; try lia.
  rewrite IH; [done|lia].
Qed.

Lemma substring_prefix (a b : string) :
  String.substring 0 (String.length a) (a +:+ b) = a.
Proof. induction a as [|x a IH]; simpl; [by destruct b|]. rewrite IH. done. Qed.

Lemma eqb_empty_false (s : string) : 0 < String.length s -> String.eqb s "" = false.
Proof. destruct s; simpl; [lia|done]. Qed.

Lemma rstrip_app (a b : string) :
  rstrip (a +:+ b) = if String.eqb (rstrip b) "" then rstrip a else a +:+ rstrip b.
Proof.
  induction a as [|c a IH].
  - rewrite app_nil_l. destruct (String.eqb_spec (rstrip b) "") as [->|]; done.
  - rewrite app_cons. simpl. rewrite IH.
    destruct (String.eqb_spec (rstrip b) "") as [Hb|Hb]; [done|].
    assert (String.eqb (a +:+ rstrip b) "" = false) as ->.
    { apply eqb_empty_false. rewrite length_app.
      destruct (rstrip b); simpl; [done|lia]. }
    done.
Qed.

Lemma rstrip_nonspace (s : string) : all_nonspace s = true -> rstrip s = s.
Proof.
  induction s as [|c s IH]; simpl; [done|].
  intros [Hc Hs]%andb_prop. rewrite IH by done.
  destruct (py_isspace c); simpl in *; [done|].
  by rewrite andb_false_r.
Qed.

Lemma rstrip_space : rstrip " " = "".
Proof. reflexivity. Qed.

Lemma join_cons2 (sep x y : string) (l : list string) :
  join sep (x :: y :: l) = x +:+ (sep +:+ join sep (y :: l)).
Proof. reflexivity. Qed.

(** The join of non-empty whitespace-free tokens is its own [rstrip] and
    is non-empty. *)
Lemma rstrip_join (l : list string) :
  l <> [] -> Forall ok_token l ->
  rstrip (join " " l) = join " " l /\ join " " l <> "".
Proof.
  induction l as [|x [|y l] IH]; intros Hne Hok; [done| |].
  - inversion Hok as [|? ? [Hx Hxs] _]; subst. unfold join; simpl.
    split; [by apply rstrip_nonspace|done].
  - inversion Hok as [|? ? [Hx Hxs] Hrest]; subst.
    destruct IH as [IH1 IH2]; [done|done|].
    rewrite join_cons2, rstrip_app, rstrip_app, IH1.
    destruct (String.eqb_spec (join " " (y :: l)) "") as [|_]; [done|].
    split; [done|]. destruct x; [done|]. rewrite app_cons. done.
Qed.

End StrFacts.

(* ================================================================== *)
(** * The example builder's loop *)

Module Builder.
Import StrFacts.

(** The two iterations of the loop, for an order [[e1; e2]] naming both
    entities: the pre-strip text and the two recorded character spans. *)
Lemma build_two (item : Item.t) (e1 e2 : entity) a1 b1 a2 b2 cs0 :
  entity_eqb e1 e2 = false ->
  token_spans_of item e1 = (a1, b1) -> token_spans_of item e2 = (a2, b2) ->
  let tokens := Item.token item in
  let t1 := join " " (list_slice tokens 0 a1) in
  let t2 := if negb (String.eqb t1 "") then t1 +:+ " " else t1 in
  let t3 := t2 +:+ (join " " (list_slice tokens a1 b1) +:+ " ") in
  let u2 := (t3 +:+ join " " (list_slice tokens b1 a2)) +:+ " " in
  let u3 := u2 +:+ (join " " (list_slice tokens a2 b2) +:+ " ") in
  forall text cur cs,
  fold_left (build_step item) [e1; e2] ("", 0, cs0) = (text, cur, cs) ->
  text = u3 /\ cur = b2 /\
  cs e1 = (String.length t2, String.length t3) /\
  cs e2 = (String.length u2, String.length u3).
Proof.
  intros Hne H1 H2 tokens t1 t2 t3 u2 u3 text cur cs Hf.
  simpl in Hf. unfold build_step in Hf. rewrite H1, H2 in Hf. simpl in Hf.
  rewrite app_nil_l in Hf.
  assert (String.eqb (t3 +:+ join " " (list_slice tokens b1 a2)) "" = false) as Ht3.
  { apply eqb_empty_false. unfold t3. rewrite !length_app. simpl. lia. }
  fold tokens t1 t2 t3 in Hf. rewrite Ht3 in Hf. simpl in Hf.
  fold u2 u3 in Hf.
  injection Hf as <- <- <-.
  destruct e1, e2; simpl in Hne; try discriminate; unfold set_start, set_end; simpl;
    repeat split.
Qed.

Lemma list_slice_nonempty (tokens : list string) a b :
  a < b -> b <= length tokens -> list_slice tokens a b <> [].
Proof.
  intros Hab Hb Hnil. assert (length (list_slice tokens a b) = 0) as Hl by (by rewrite Hnil).
  unfold list_slice in Hl. rewrite length_take, length_drop in Hl. lia.
Qed.

Lemma list_slice_ok (tokens : list string) a b :
  Forall ok_token tokens -> Forall ok_token (list_slice tokens a b).
Proof. intros H. unfold list_slice. by apply Forall_take, Forall_drop. Qed.

(** The slices of the stripped text at the two recorded spans. *)
Lemma slices_two (tokens : list string) a1 b1 a2 b2 :
  a1 < b1 -> b1 <= a2 -> a2 < b2 -> b2 <= length tokens -> Forall ok_token tokens ->
  let t1 := join " " (list_slice tokens 0 a1) in
  let t2 := if negb (String.eqb t1 "") then t1 +:+ " " else t1 in
  let t3 := t2 +:+ (join " " (list_slice tokens a1 b1) +:+ " ") in
  let u2 := (t3 +:+ join " " (list_slice tokens b1 a2)) +:+ " " in
  let u3 := u2 +:+ (join " " (list_slice tokens a2 b2) +:+ " ") in
  let T := rstrip (u3 +:+ join " " (drop b2 tokens)) in
  str_slice T (String.length t2) (String.length t3) =
    join " " (list_slice tokens a1 b1) +:+ (if b1 =? length tokens then "" else " ") /\
  str_slice T (String.length u2) (String.length u3) =
    join " " (list_slice tokens a2 b2) +:+ (if b2 =? length tokens then "" else " ").
Proof.
  intros H1 H12 H2 Hn Hok t1 t2 t3 u2 u3 T.
  set (J1 := join " " (list_slice tokens a1 b1)).
  set (J2 := join " " (list_slice tokens a2 b2)).
  set (X := join " " (list_slice tokens b1 a2)).
  destruct (rstrip_join (list_slice tokens a2 b2)) as [HJ2 HJ2ne];
    [by apply list_slice_nonempty|by apply list_slice_ok|].
  fold J2 in HJ2, HJ2ne.
  (* the stripped text is [u2] followed by some [W] *)
  assert (exists W, T = u2 +:+ W /\
            String.substring 0 (String.length J2 + 1) W =
              J2 +:+ (if b2 =? length tokens then "" else " ")) as [W [HT HW]].
  { destruct (Nat.eqb_spec b2 (length tokens)) as [Heq|Hlt].
    - exists J2. split.
      + unfold T. rewrite Heq, drop_all. change (join " " []) with "".
        rewrite app_nil_r. unfold u3. fold J2. rewrite rstrip_app, (rstrip_app J2 " "), rstrip_space.
        simpl String.eqb. cbv iota. rewrite HJ2.
        rewrite eqb_empty_false; [done|]. destruct J2; [done|simpl; lia].
      + rewrite app_nil_r. apply substring_whole. lia.
    - set (R := join " " (drop b2 tokens)).
      destruct (rstrip_join (drop b2 tokens)) as [HR HRne].
      { intros Hd. assert (length (drop b2 tokens) = 0) as Hl by (by rewrite Hd).
        rewrite length_drop in Hl. lia. }
      { by apply Forall_drop. }
      fold R in HR, HRne.
      exists ((J2 +:+ " ") +:+ R). split.
      + unfold T. fold R. rewrite rstrip_app, HR.
        rewrite eqb_empty_false; [|destruct R; [done|simpl; lia]].
        unfold u3. by rewrite app_assoc.
      + assert (String.length J2 + 1 = String.length (J2 +:+ " ")) as ->
          by (rewrite length_app; done).
        apply substring_prefix. }
  split.
  - assert ((b1 =? length tokens) = false) as -> by (apply Nat.eqb_neq; lia).
    assert (T = t2 +:+ ((J1 +:+ " ") +:+ ((X +:+ " ") +:+ W))) as HT'.
    { rewrite HT. unfold u2, t3. fold J1 X. by rewrite !app_assoc. }
    unfold str_slice. rewrite HT'.
    assert (String.length t3 - String.length t2 = String.length (J1 +:+ " ")) as ->.
    { unfold t3. fold J1. rewrite !length_app. lia. }
    rewrite <- (Nat.add_0_r (String.length t2)), substring_app_skip.
    apply substring_prefix.
  - unfold str_slice. rewrite HT.
    assert (String.length u3 - String.length u2 = String.length J2 + 1) as ->.
    { unfold u3. fold J2. rewrite !length_app. simpl. lia. }
    rewrite <- (Nat.add_0_r (String.length u2)), substring_app_skip. done.
Qed.

(** The loop records, for both entities, an end past the start, and the
    entity placed first ends no later than the other starts. *)
Lemma build_loop_spans (item : Item.t) text cur cs :
  build_loop item = (text, cur, cs) ->
  forall e1 e2, entity_order item = [e1; e2] ->
  fst (cs e1) < snd (cs e1) <= fst (cs e2) /\ fst (cs e2) < snd (cs e2).
Proof.
  intros Hb e1 e2 Ho. unfold build_loop in Hb. rewrite Ho in Hb.
  destruct (token_spans_of item e1) as [a1 b1] eqn:H1.
  destruct (token_spans_of item e2) as [a2 b2] eqn:H2.
  assert (entity_eqb e1 e2 = false) as Hne.
  { unfold entity_order in Ho. destruct (_ <? _); injection Ho as <- <-; done. }
  destruct (build_two item e1 e2 a1 b1 a2 b2 _ Hne H1 H2 _ _ _ Hb)
    as (_ & _ & -> & ->).
  simpl. rewrite !length_app. simpl. lia.
Qed.

End Builder.

(* ================================================================== *)
(** * Claims on the example builder *)

(** C1 (counterexample): on the round-trip record of the spec the builder
    does not produce [span_a = (0,4)] and [span_b = (15,20)]. *)
Lemma C1_counterexample :
  ~ (let ex := create_example "train" 0 john_item in
     InputExample.text ex = "John lives in Paris" /\
     InputExample.span_a ex = (0, 4) /\ InputExample.span_b ex = (15, 20)).
Proof. vm_compute. intros [_ [H _]]. discriminate. Qed.

(** C1 (amended): on the record with tokens [John lives in Paris],
    subj (0,0) PERSON, obj (3,3) CITY and relation lives_in, the builder
    produces the text "John lives in Paris", [span_a = (0,5)] and
    [span_b = (14,20)]: each end offset is one past the space written after
    the entity ("John " and, before the final rstrip, "Paris "). *)
Theorem C1_round_trip (set_type : string) (i : nat) :
  let ex := create_example set_type i john_item in
  InputExample.text ex = "John lives in Paris" /\
  InputExample.span_a ex = (0, 5) /\ InputExample.span_b ex = (14, 20) /\
  InputExample.type_a ex = "PERSON" /\ InputExample.type_b ex = "CITY" /\
  InputExample.label ex = "lives_in".
Proof. repeat split. Qed.

(** The claim C2 read literally: the slices are the bare joins. *)
Definition slices_are_joins (item : Item.t) (ex : InputExample.t) : Prop :=
  let tokens := Item.token item in
  str_slice (InputExample.text ex) (fst (InputExample.span_a ex)) (snd (InputExample.span_a ex)) =
    join " " (list_slice tokens (Item.subj_start item) (Item.subj_end item + 1)) /\
  str_slice (InputExample.text ex) (fst (InputExample.span_b ex)) (snd (InputExample.span_b ex)) =
    join " " (list_slice tokens (Item.obj_start item) (Item.obj_end item + 1)).

(** C2 (counterexample): on the round-trip record the [span_a] slice of the
    text is "John " (with the trailing space), not "John". *)
Lemma C2_counterexample : ~ slices_are_joins john_item (create_example "train" 0 john_item).
Proof. vm_compute. intros [H _]. discriminate. Qed.

(** C2 (amended): for a record with in-bounds, non-overlapping subj and obj
    token spans whose tokens are non-empty and free of whitespace, the text
    sliced at an entity's recorded character span is the space-join of the
    entity's tokens followed by one space, except for an entity that ends
    at the last token, whose trailing space was removed by the final
    [rstrip]: its slice is the join alone. *)
Theorem C2_spans_slice_text (set_type : string) (i : nat) (item : Item.t) :
  let tokens := Item.token item in
  Item.subj_start item <= Item.subj_end item < length tokens ->
  Item.obj_start item <= Item.obj_end item < length tokens ->
  Item.subj_end item < Item.obj_start item \/ Item.obj_end item < Item.subj_start item ->
  Forall ok_token tokens ->
  let ex := create_example set_type i item in
  str_slice (InputExample.text ex) (fst (InputExample.span_a ex)) (snd (InputExample.span_a ex)) =
    join " " (list_slice tokens (Item.subj_start item) (Item.subj_end item + 1)) +:+
      (if Item.subj_end item + 1 =? length tokens then "" else " ") /\
  str_slice (InputExample.text ex) (fst (InputExample.span_b ex)) (snd (InputExample.span_b ex)) =
    join " " (list_slice tokens (Item.obj_start item) (Item.obj_end item + 1)) +:+
      (if Item.obj_end item + 1 =? length tokens then "" else " ").
Proof.
  intros tokens Hs Ho Hdis Hok ex. unfold ex, create_example.
  destruct (build_loop item) as [[text cur] cs] eqn:Hb. simpl.
  unfold build_loop, entity_order in Hb. simpl in Hb.
  destruct (Nat.ltb_spec (Item.subj_start item) (Item.obj_start item)) as [Hlt|Hge].
  - destruct (Builder.build_two item subj obj _ _ _ _ _ eq_refl eq_refl eq_refl _ _ _ Hb)
      as (-> & -> & -> & ->).
    apply (Builder.slices_two tokens); unfold tokens in *; lia || done.
  - destruct (Builder.build_two item obj subj _ _ _ _ _ eq_refl eq_refl eq_refl _ _ _ Hb)
      as (-> & -> & -> & ->).
    destruct (Builder.slices_two tokens (Item.obj_start item) (Item.obj_end item + 1)
                (Item.subj_start item) (Item.subj_end item + 1)) as [Hx Hy];
      unfold tokens in *; try lia; try done.
Qed.

(** Witness of C2 on the round-trip record. *)
Lemma C2_spans_slice_text_witness :
  str_slice (InputExample.text (create_example "train" 0 john_item)) 0 5 = "John " /\
  str_slice (InputExample.text (create_example "train" 0 john_item)) 14 20 = "Paris".
Proof.
  pose proof (C2_spans_slice_text "train" 0 john_item) as H. simpl in H.
  destruct H as [Ha Hb]; [lia|lia|lia| |].
  { repeat constructor; discriminate. }
  split; [exact Ha|exact Hb].
Defined.

(** A record whose subj and obj token spans start at the same token. *)
Definition tie_item : Item.t :=
  Item.mk ["a"; "b"] 0 0 0 1 "PERSON" "CITY" "no_relation".

Lemma create_example_spans (set_type : string) (i : nat) (item : Item.t) :
  let ex := create_example set_type i item in
  (Item.subj_start item < Item.obj_start item ->
   fst (InputExample.span_a ex) < snd (InputExample.span_a ex) <= fst (InputExample.span_b ex) /\
   fst (InputExample.span_b ex) < snd (InputExample.span_b ex)) /\
  (Item.obj_start item <= Item.subj_start item ->
   fst (InputExample.span_b ex) < snd (InputExample.span_b ex) <= fst (InputExample.span_a ex) /\
   fst (InputExample.span_a ex) < snd (InputExample.span_a ex)).
Proof.
  intros ex. unfold ex, create_example.
  destruct (build_loop item) as [[text cur] cs] eqn:Hb. simpl.
  pose proof (Builder.build_loop_spans item text cur cs Hb) as Hsp.
  unfold entity_order in Hsp. simpl in Hsp.
  split; intros H.
  - apply Hsp. apply Nat.ltb_lt in H. by rewrite H.
  - apply Hsp. assert ((Item.subj_start item <? Item.obj_start item) = false) as ->
      by (apply Nat.ltb_ge; lia). done.
Qed.

(** C3 (counterexample): when the subj and obj token spans start at the
    same token, subj is not placed first: obj is. *)
Lemma C3_counterexample :
  let ex := create_example "train" 0 tie_item in
  Item.subj_start tie_item = Item.obj_start tie_item /\
  ~ (snd (InputExample.span_a ex) <= fst (InputExample.span_b ex)).
Proof. vm_compute. split; [done|intros H; inversion H]. Qed.

(** C3 (amended): the entity with the strictly smaller start token is
    placed first in the rebuilt text; when the starts are equal, obj is
    placed first (the test is [subj_start < obj_start], else obj first).
    "Placed first" means its character span ends no later than the other
    entity's span starts. *)
Theorem C3_entity_order (set_type : string) (i : nat) (item : Item.t) :
  let ex := create_example set_type i item in
  (Item.subj_start item < Item.obj_start item ->
   snd (InputExample.span_a ex) <= fst (InputExample.span_b ex)) /\
  (Item.obj_start item <= Item.subj_start item ->
   snd (InputExample.span_b ex) <= fst (InputExample.span_a ex)).
Proof.
  intros ex. subst ex. destruct (create_example_spans set_type i item) as [H1 H2].
  split; intros H; [apply H1 in H|apply H2 in H]; lia.
Qed.

(** C8: every example built from a record has two character spans with
    end strictly greater than start that do not overlap. This holds for
    every record, in particular for those with in-bounds, non-overlapping
    token spans. *)
Theorem C8_example_spans_invariant (set_type : string) (i : nat) (item : Item.t) :
  let ex := create_example set_type i item in
  fst (InputExample.span_a ex) < snd (InputExample.span_a ex) /\
  fst (InputExample.span_b ex) < snd (InputExample.span_b ex) /\
  (snd (InputExample.span_a ex) <= fst (InputExample.span_b ex) \/
   snd (InputExample.span_b ex) <= fst (InputExample.span_a ex)).
Proof.
  intros ex. subst ex. destruct (create_example_spans set_type i item) as [H1 H2].
  destruct (Nat.lt_ge_cases (Item.subj_start item) (Item.obj_start item)) as [H|H].
  - apply H1 in H. lia.
  - apply H2 in H. lia.
Qed.

(* ================================================================== *)
(** * The label vocabulary *)

Module Labels.

Lemma foldl_labels (exs : list InputExample.t) (s0 : gset string) (x : string) :
  x ∈ foldl (fun (s : gset string) ex => {[ InputExample.label ex ]} ∪ s) s0 exs <->
  x ∈ s0 \/ exists ex, ex ∈ exs /\ InputExample.label ex = x.
Proof.
  revert s0. induction exs as [|e exs IH]; intros s0; simpl.
  - split; [by left|]. intros [H|(ex & Hin & _)]; [done|]. by apply not_elem_of_nil in Hin.
  - rewrite IH, elem_of_union, elem_of_singleton. setoid_rewrite elem_of_cons. naive_solver.
Qed.

(** Adjacent elements of a sorted list without duplicates are distinct. *)
Lemma Sorted_NoDup_strict {A} (R : relation A) (l : list A) :
  Sorted R l -> NoDup l -> Sorted (fun a b => R a b /\ a <> b) l.
Proof.
  induction 1 as [|x l Hs IH Hhd]; intros Hnd; constructor.
  - apply IH. by apply NoDup_cons in Hnd as [_ ?].
  - apply NoDup_cons in Hnd as [Hx _].
    destruct Hhd as [|y l' Hxy]; constructor. split; [done|].
    intros ->. apply Hx. apply elem_of_cons. by left.
Qed.

End Labels.

(** C5: the vocabulary is ["no_relation"] followed by the labels of the
    training examples other than "no_relation", each once, in strictly
    increasing code-point order. *)
Theorem C5_label_list (train_examples : list InputExample.t) :
  exists rest, get_label_list train_examples = "no_relation" :: rest /\
    Sorted (fun a b => String.le a b /\ a <> b) rest /\ NoDup rest /\
    (forall l, l ∈ rest <->
       (exists ex, ex ∈ train_examples /\ InputExample.label ex = l) /\ l <> "no_relation").
Proof.
  unfold get_label_list.
  set (S := foldl (fun (s : gset string) ex => {[ InputExample.label ex ]} ∪ s) ∅ train_examples).
  eexists. split; [reflexivity|].
  assert (NoDup (merge_sort String.le (elements (S ∖ {["no_relation"]})))) as Hnd.
  { rewrite merge_sort_Permutation. apply NoDup_elements. }
  split; [|split; [done|]].
  - apply Labels.Sorted_NoDup_strict; [apply Sorted_merge_sort; apply _|done].
  - intros l. rewrite merge_sort_Permutation, elem_of_elements, elem_of_difference,
      elem_of_singleton. unfold S. rewrite Labels.foldl_labels.
    split.
    + intros [[H|H] Hne]; [by apply not_elem_of_empty in H|done].
    + intros [H Hne]. split; [by right|done].
Qed.

(* ================================================================== *)
(** * The feature encoder's loop *)

Module Encoder.

Lemma take_map_seq (M s k : nat) :
  take M (map Z.of_nat (seq s k)) = map Z.of_nat (seq s (Nat.min k M)).
Proof.
  revert s M. induction k as [|k IH]; intros s [|M]; simpl; try done.
  rewrite IH. done.
Qed.

(** The spec's description of the position ids of a token range [(s, e)]:
    its indices truncated to [M] entries, right-padded with -1 to [M]. *)
Definition padded_range (M : nat) (r : nat * nat) : list Z :=
  map Z.of_nat (seq (fst r) (Nat.min (snd r - fst r) M)) ++ repeat (-1)%Z (M - (snd r - fst r)).

Lemma position_ids_of_spec (M : nat) (r : nat * nat) :
  fst r <= snd r ->
  position_ids_of M r = padded_range M r /\ length (position_ids_of M r) = M.
Proof.
  destruct r as [s e]; simpl. intros Hse. unfold position_ids_of, padded_range; simpl.
  rewrite take_map_seq.
  assert (Z.to_nat (Z.of_nat M - Z.of_nat e + Z.of_nat s) = M - (e - s)) as -> by lia.
  split; [done|]. rewrite length_app, length_map, length_seq, repeat_length. lia.
Qed.

Lemma span_order_cases (ex : InputExample.t) :
  (snd (InputExample.span_a ex) < snd (InputExample.span_b ex) /\ span_order ex = [SpanA; SpanB]) \/
  (snd (InputExample.span_b ex) <= snd (InputExample.span_a ex) /\ span_order ex = [SpanB; SpanA]).
Proof.
  unfold span_order. destruct (Nat.ltb_spec (snd (InputExample.span_a ex)) (snd (InputExample.span_b ex))).
  - by left.
  - by right.
Qed.

Section Shape.
Variable tokenizer : Tokenizer.
Variable use_marker_token : bool.

Definition mk (n : span_name) : list string := if use_marker_token then [marker n] else [].

(** The final token sequence and the recorded token ranges, for an order
    [[n1; n2]] naming both spans. *)
Lemma encode_tokens_shape (ex : InputExample.t) (n1 n2 : span_name) :
  span_order ex = [n1; n2] ->
  let text := InputExample.text ex in
  let sp1 := getattr_span ex n1 in
  let sp2 := getattr_span ex n2 in
  let pre1 := [cls_token tokenizer] ++ tokenize tokenizer (str_slice text 0 (fst sp1)) in
  let mid := pre1 ++ mk n1 ++ tokenize tokenizer (str_slice text (fst sp1) (snd sp1)) ++ mk n1 in
  let pre2 := mid ++ tokenize tokenizer (str_slice text (snd sp1) (fst sp2)) in
  let fin := pre2 ++ mk n2 ++ tokenize tokenizer (str_slice text (fst sp2) (snd sp2)) ++ mk n2 in
  encode_tokens tokenizer use_marker_token ex =
    (fin ++ tokenize tokenizer (str_from text (snd sp2)) ++ [sep_token tokenizer],
     [(n2, (length pre2, length fin)); (n1, (length pre1, length mid))]).
Proof.
  intros Ho text sp1 sp2 pre1 mid pre2 fin.
  subst fin pre2 mid pre1 sp1 sp2 text.
  unfold encode_tokens. rewrite Ho. simpl. unfold mk.
  destruct use_marker_token; simpl; rewrite ?app_nil_r;
    f_equal; try (repeat (rewrite <- app_assoc || rewrite <- app_comm_cons); done);
    repeat f_equal; rewrite ?length_app; simpl; rewrite ?length_app; simpl; try lia.
Qed.

End Shape.

Lemma lookup_span_two (n1 n2 : span_name) r1 r2 :
  span_name_eqb n2 n1 = false ->
  lookup_span [(n2, r2); (n1, r1)] n1 = Ok r1 /\ lookup_span [(n2, r2); (n1, r1)] n2 = Ok r2.
Proof. intros H. simpl. rewrite H. destruct n1, n2; done. Qed.

(** The recorded token ranges: both present, well-formed, and the span
    processed first lies before the other. *)
Lemma encode_ranges (tokenizer : Tokenizer) (use_marker_token : bool) (ex : InputExample.t) :
  let ts := snd (encode_tokens tokenizer use_marker_token ex) in
  exists ra rb, lookup_span ts SpanA = Ok ra /\ lookup_span ts SpanB = Ok rb /\
    fst ra <= snd ra /\ fst rb <= snd rb /\
    (snd (InputExample.span_a ex) < snd (InputExample.span_b ex) -> snd ra <= fst rb) /\
    (snd (InputExample.span_b ex) <= snd (InputExample.span_a ex) -> snd rb <= fst ra).
Proof.
  intros ts. subst ts.
  destruct (span_order_cases ex) as [[Hlt Ho]|[Hge Ho]];
    rewrite (encode_tokens_shape tokenizer use_marker_token ex _ _ Ho); simpl;
    eexists _, _; (split; [reflexivity|]); (split; [reflexivity|]);
    simpl; rewrite ?length_app; simpl; rewrite ?length_app; lia.
Qed.

(** With markers, each span's sub-tokens sit between two copies of its
    marker, and its recorded range runs from the opening marker to one
    past the closing one. *)
Lemma marker_layout_two (tokenizer : Tokenizer) (ex : InputExample.t) (n1 n2 : span_name) :
  span_order ex = [n1; n2] -> span_name_eqb n2 n1 = false ->
  forall n, n = n1 \/ n = n2 ->
  let sub := tokenize tokenizer (str_slice (InputExample.text ex)
                (fst (getattr_span ex n)) (snd (getattr_span ex n))) in
  exists pre post,
    fst (encode_tokens tokenizer true ex) = pre ++ [marker n] ++ sub ++ [marker n] ++ post /\
    lookup_span (snd (encode_tokens tokenizer true ex)) n = Ok (length pre, length pre + length sub + 2).
Proof.
  intros Ho Hne n Hn sub. subst sub.
  rewrite (encode_tokens_shape tokenizer true ex _ _ Ho). unfold mk. cbn [fst snd].
  set (text := InputExample.text ex).
  set (sp1 := getattr_span ex n1). set (sp2 := getattr_span ex n2).
  set (P1 := tokenize tokenizer (str_slice text 0 (fst sp1))).
  set (S1 := tokenize tokenizer (str_slice text (fst sp1) (snd sp1))).
  set (P2 := tokenize tokenizer (str_slice text (snd sp1) (fst sp2))).
  set (S2 := tokenize tokenizer (str_slice text (fst sp2) (snd sp2))).
  set (R := tokenize tokenizer (str_from text (snd sp2))).
  assert (lookup_span [(n2, (length ((([cls_token tokenizer] ++ P1) ++ [marker n1] ++ S1 ++ [marker n1]) ++ P2),
      length (((([cls_token tokenizer] ++ P1) ++ [marker n1] ++ S1 ++ [marker n1]) ++ P2) ++ [marker n2] ++ S2 ++ [marker n2])));
     (n1, (length ([cls_token tokenizer] ++ P1), length (([cls_token tokenizer] ++ P1) ++ [marker n1] ++ S1 ++ [marker n1])))] n1
    = Ok (length ([cls_token tokenizer] ++ P1), length (([cls_token tokenizer] ++ P1) ++ [marker n1] ++ S1 ++ [marker n1]))
    /\ lookup_span [(n2, (length ((([cls_token tokenizer] ++ P1) ++ [marker n1] ++ S1 ++ [marker n1]) ++ P2),
      length (((([cls_token tokenizer] ++ P1) ++ [marker n1] ++ S1 ++ [marker n1]) ++ P2) ++ [marker n2] ++ S2 ++ [marker n2])));
     (n1, (length ([cls_token tokenizer] ++ P1), length (([cls_token tokenizer] ++ P1) ++ [marker n1] ++ S1 ++ [marker n1])))] n2
    = Ok (length ((([cls_token tokenizer] ++ P1) ++ [marker n1] ++ S1 ++ [marker n1]) ++ P2),
      length (((([cls_token tokenizer] ++ P1) ++ [marker n1] ++ S1 ++ [marker n1]) ++ P2) ++ [marker n2] ++ S2 ++ [marker n2])))
    as [H1 H2] by (apply lookup_span_two; done).
  destruct Hn as [->| ->].
  - exists ([cls_token tokenizer] ++ P1), (P2 ++ [marker n2] ++ S2 ++ [marker n2] ++ R ++ [sep_token tokenizer]).
    split.
    + rewrite <- !app_assoc. reflexivity.
    + rewrite H1. f_equal; f_equal; subst R S2 P2 S1 P1 sp2 sp1 text; rewrite ?length_app; simpl; rewrite ?length_app; lia.
  - exists (([cls_token tokenizer] ++ P1) ++ [marker n1] ++ S1 ++ [marker n1] ++ P2), (R ++ [sep_token tokenizer]).
    split.
    + rewrite <- !app_assoc. reflexivity.
    + rewrite H2. f_equal; f_equal; subst R S2 P2 S1 P1 sp2 sp1 text; rewrite ?length_app; simpl; rewrite ?length_app; lia.
Qed.

Lemma marker_layout (tokenizer : Tokenizer) (ex : InputExample.t) (n : span_name) :
  let sub := tokenize tokenizer (str_slice (InputExample.text ex)
                (fst (getattr_span ex n)) (snd (getattr_span ex n))) in
  exists pre post,
    fst (encode_tokens tokenizer true ex) = pre ++ [marker n] ++ sub ++ [marker n] ++ post /\
    lookup_span (snd (encode_tokens tokenizer true ex)) n = Ok (length pre, length pre + length sub + 2).
Proof.
  destruct (span_order_cases ex) as [[_ Ho]|[_ Ho]];
    apply (marker_layout_two tokenizer ex _ _ Ho); try done; destruct n; auto.
Qed.

End Encoder.

(* ================================================================== *)
(** * Dict lookups and the conversion loop *)

Module Convert.

Lemma mapM_Ok_Forall2 {A B} (f : A -> result B) (l : list A) (l' : list B) :
  mapM f l = Ok l' -> Forall2 (fun x y => f x = Ok y) l l'.
Proof.
  revert l'. induction l as [|x l IH]; intros l' H; simpl in H.
  - injection H as <-. constructor.
  - destruct (f x) as [y|e] eqn:Hf; simpl in H; [|discriminate].
    destruct (mapM f l) as [ys|e] eqn:Hm; simpl in H; [|discriminate].
    injection H as <-. constructor; auto.
Qed.

Lemma Forall2_mapM_Ok {A B} (f : A -> result B) (l : list A) (l' : list B) :
  Forall2 (fun x y => f x = Ok y) l l' -> mapM f l = Ok l'.
Proof. induction 1 as [|x y l l' Hxy _ IH]; simpl; [done|]. rewrite Hxy, IH. done. Qed.

Lemma label_map_snoc (L : list string) (x : string) :
  label_map_of (L ++ [x]) = <[x := length L]> (label_map_of L).
Proof.
  unfold label_map_of. rewrite imap_app, foldl_app. simpl. by rewrite Nat.add_0_r.
Qed.

Lemma lookup_snoc_ne (L : list string) (x l : string) (k : nat) :
  x <> l -> (L ++ [x]) !! k = Some l <-> L !! k = Some l.
Proof.
  intros Hne. rewrite lookup_app. destruct (L !! k) eqn:E; [done|].
  split; [|discriminate].
  destruct (k - length L) as [|?]; simpl; [intros [= ->]; done|discriminate].
Qed.

(** [{l: i for i, l in enumerate(label_list)}]: a label maps to the index
    of its last occurrence. *)
Lemma label_map_lookup (L : list string) (l : string) (k : nat) :
  label_map_of L !! l = Some k <->
  L !! k = Some l /\ (forall j, L !! j = Some l -> j <= k).
Proof.
  revert k. induction L as [|x L IH] using rev_ind; intros k.
  - unfold label_map_of. simpl. rewrite lookup_empty. split; [discriminate|].
    intros [H _]. done.
  - rewrite label_map_snoc, lookup_insert. case_decide as Hx.
    + subst x. split.
      * intros [= <-]. split.
        -- rewrite lookup_app_r, Nat.sub_diag by lia. done.
        -- intros j Hj. apply lookup_lt_Some in Hj. rewrite length_app in Hj. simpl in Hj. lia.
      * intros [Hk Hmax].
        assert (length L <= k).
        { apply Hmax. rewrite lookup_app_r, Nat.sub_diag by lia. done. }
        apply lookup_lt_Some in Hk. rewrite length_app in Hk. simpl in Hk.
        f_equal. lia.
    + rewrite IH. rewrite lookup_snoc_ne by done.
      split; intros [Hk Hmax]; split; try done; intros j Hj; apply Hmax.
      * by apply lookup_snoc_ne in Hj.
      * by apply lookup_snoc_ne.
Qed.

Lemma label_map_None (L : list string) (l : string) :
  label_map_of L !! l = None <-> l ∉ L.
Proof.
  induction L as [|x L IH] using rev_ind.
  - unfold label_map_of. simpl. rewrite lookup_empty. split; [|done].
    intros _. apply not_elem_of_nil.
  - rewrite label_map_snoc, lookup_insert, elem_of_app, list_elem_of_singleton.
    case_decide as Hx.
    + subst x. split; [discriminate|]. intros H. exfalso. apply H. by right.
    + rewrite IH. split; intros H; [intros [?|?]; [by apply H|congruence]|].
      intros ?. apply H. by left.
Qed.

Lemma type_map_complete (t : string) : t ∈ ENTITY_TYPES -> is_Some (type_map !! t).
Proof.
  assert (Forall (fun t => is_Some (type_map !! t)) ENTITY_TYPES) as Hall.
  { apply (bool_decide_unpack _). vm_compute. exact I. }
  intros Ht. rewrite Forall_forall in Hall. by apply Hall.
Qed.

Section Example.
Variable tokenizer : Tokenizer.
Variable max_mention_length : nat.
Variable use_entity_type_token : bool.
Variable use_marker_token : bool.
Variable label_map : gmap string nat.

Lemma convert_example_Ok_inv (ex : InputExample.t) (f : InputFeatures.t) :
  convert_example tokenizer max_mention_length use_entity_type_token use_marker_token
    label_map ex = Ok f ->
  label_map !! InputExample.label ex = Some (InputFeatures.label f) /\
  exists ra rb,
    lookup_span (snd (encode_tokens tokenizer use_marker_token ex)) SpanA = Ok ra /\
    lookup_span (snd (encode_tokens tokenizer use_marker_token ex)) SpanB = Ok rb /\
    InputFeatures.entity_position_ids f =
      [position_ids_of max_mention_length ra; position_ids_of max_mention_length rb].
Proof.
  unfold convert_example. destruct (encode_tokens tokenizer use_marker_token ex) as [tokens ts].
  cbn [snd]. intros H.
  destruct use_entity_type_token;
    [destruct (getitem type_map (InputExample.type_a ex));
     [destruct (getitem type_map (InputExample.type_b ex))|]|];
    simpl in H; try discriminate;
    (destruct (lookup_span ts SpanA) as [ra|] eqn:Ha; simpl in H; [|discriminate]);
    (destruct (lookup_span ts SpanB) as [rb|] eqn:Hb; simpl in H; [|discriminate]);
    unfold getitem in H; destruct (label_map !! InputExample.label ex) eqn:Hl;
    simpl in H; try discriminate;
    injection H as <-; simpl; split; eauto.
Qed.

Lemma convert_example_Ok (ex : InputExample.t) (k : nat) :
  (use_entity_type_token = true ->
     is_Some (type_map !! InputExample.type_a ex) /\ is_Some (type_map !! InputExample.type_b ex)) ->
  label_map !! InputExample.label ex = Some k ->
  exists f, convert_example tokenizer max_mention_length use_entity_type_token use_marker_token
    label_map ex = Ok f /\ InputFeatures.label f = k.
Proof.
  intros Hty Hl.
  destruct (Encoder.encode_ranges tokenizer use_marker_token ex) as (ra & rb & Ha & Hb & _).
  unfold convert_example. destruct (encode_tokens tokenizer use_marker_token ex) as [tokens ts].
  cbn [snd] in Ha, Hb.
  destruct use_entity_type_token.
  - destruct (Hty eq_refl) as [[ta Hta] [tb Htb]].
    unfold getitem. rewrite Hta, Htb. simpl. rewrite Ha, Hb. simpl. rewrite Hl.
    eexists. split; reflexivity.
  - simpl. rewrite Ha, Hb. simpl. unfold getitem. rewrite Hl. eexists. split; reflexivity.
Qed.

End Example.

End Convert.

(* ================================================================== *)
(** * Claims on the feature encoder *)

(** The example of the round-trip record, and its label vocabulary. *)
Definition john_example : InputExample.t := create_example "train" 0 john_item.
Definition john_labels : list string := ["no_relation"; "lives_in"].

(** An example whose two character spans start at the same offset. *)
Definition same_start_example : InputExample.t :=
  InputExample.mk "train-0" "abcde" (0, 5) (0, 3) "PERSON" "CITY" "no_relation".

(** C4 (counterexample): the spans of [same_start_example] start at the
    same offset, yet span_b is processed first: its token range (1,4)
    precedes span_a's (4,7). *)
Lemma C4_counterexample :
  fst (InputExample.span_a same_start_example) = fst (InputExample.span_b same_start_example) /\
  lookup_span (snd (encode_tokens space_tokenizer true same_start_example)) SpanA = Ok (4, 7) /\
  lookup_span (snd (encode_tokens space_tokenizer true same_start_example)) SpanB = Ok (1, 4) /\
  ~ (7 <= 1).
Proof. repeat split; [reflexivity..|]. intros H. apply Nat.leb_le in H. discriminate. Qed.

(** C4 (amended): the encoder processes the two character spans in order
    of increasing END offset ([span_a[1] < span_b[1]]), and span_b first
    when the end offsets are equal: the token range recorded for the span
    processed first ends no later than the other one starts. *)
Theorem C4_span_processing_order (tokenizer : Tokenizer) (use_marker_token : bool)
    (ex : InputExample.t) :
  let ts := snd (encode_tokens tokenizer use_marker_token ex) in
  exists ra rb, lookup_span ts SpanA = Ok ra /\ lookup_span ts SpanB = Ok rb /\
    (snd (InputExample.span_a ex) < snd (InputExample.span_b ex) -> snd ra <= fst rb) /\
    (snd (InputExample.span_b ex) <= snd (InputExample.span_a ex) -> snd rb <= fst ra).
Proof.
  destruct (Encoder.encode_ranges tokenizer use_marker_token ex)
    as (ra & rb & Ha & Hb & _ & _ & H1 & H2).
  exists ra, rb. auto.
Qed.

(** The position ids of a feature [f] produced from [ex]: for each span
    with recorded token range [r], the range's indices truncated to
    [max_mention_length], then -1 padding, length [max_mention_length]. *)
Definition positions_ok (tokenizer : Tokenizer) (max_mention_length : nat)
    (use_marker_token : bool) (ex : InputExample.t) (f : InputFeatures.t) : Prop :=
  exists ra rb,
    lookup_span (snd (encode_tokens tokenizer use_marker_token ex)) SpanA = Ok ra /\
    lookup_span (snd (encode_tokens tokenizer use_marker_token ex)) SpanB = Ok rb /\
    fst ra <= snd ra /\ fst rb <= snd rb /\
    InputFeatures.entity_position_ids f =
      [Encoder.padded_range max_mention_length ra; Encoder.padded_range max_mention_length rb] /\
    Forall (fun p => length p = max_mention_length) (InputFeatures.entity_position_ids f).

(** C6: every feature record produced by the encoder has, for both
    entities, position ids of length exactly [max_mention_length]: the
    consecutive indices of the entity's token range truncated to
    [max_mention_length] entries, then -1 padding; a range longer than
    [max_mention_length] gets no padding. *)
Theorem C6_entity_position_ids (tokenizer : Tokenizer) (max_mention_length : nat)
    (use_entity_type_token use_marker_token : bool)
    (examples : list InputExample.t) (label_list : list string) (fs : list InputFeatures.t) :
  convert_examples_to_features tokenizer max_mention_length use_entity_type_token
    use_marker_token examples label_list = Ok fs ->
  Forall2 (positions_ok tokenizer max_mention_length use_marker_token) examples fs.
Proof.
  intros H. apply Convert.mapM_Ok_Forall2 in H.
  eapply Forall2_impl; [exact H|]. intros ex f Hf.
  destruct (Convert.convert_example_Ok_inv _ _ _ _ _ ex f Hf) as (_ & ra & rb & Ha & Hb & Hp).
  destruct (Encoder.encode_ranges tokenizer use_marker_token ex)
    as (ra' & rb' & Ha' & Hb' & Hra & Hrb & _).
  rewrite Ha in Ha'. rewrite Hb in Hb'. injection Ha' as <-. injection Hb' as <-.
  destruct (Encoder.position_ids_of_spec max_mention_length ra Hra) as [Ea La].
  destruct (Encoder.position_ids_of_spec max_mention_length rb Hrb) as [Eb Lb].
  exists ra, rb. rewrite Hp, Ea, Eb.
  repeat split; try done. rewrite <- Ea, <- Eb. repeat constructor; done.
Qed.

(** Witness of C6: the round-trip example with a two-slot budget. *)
Lemma C6_entity_position_ids_witness :
  exists fs, convert_examples_to_features space_tokenizer 2 true true [john_example] john_labels = Ok fs /\
    Forall2 (positions_ok space_tokenizer 2 true) [john_example] fs.
Proof.
  set (r := convert_examples_to_features space_tokenizer 2 true true [john_example] john_labels).
  exists (match r with Ok fs => fs | Raise _ => [] end).
  assert (r = Ok (match r with Ok fs => fs | Raise _ => [] end)) as Hr by (vm_compute; reflexivity).
  split; [exact Hr|].
  exact (C6_entity_position_ids space_tokenizer 2 true true [john_example] john_labels _ Hr).
Defined.

(** An example whose entity type is outside [ENTITY_TYPES]. *)
Definition foreign_type_example : InputExample.t :=
  InputExample.mk "train-0" "John lives in Paris" (0, 5) (14, 20) "FOO" "CITY" "lives_in".

(** C7 (counterexample): every label is in the vocabulary, yet with
    [use_entity_type_token] the conversion raises [KeyError "FOO"] on the
    unknown entity type instead of producing a feature record. *)
Lemma C7_counterexample :
  InputExample.label foreign_type_example ∈ john_labels /\
  convert_examples_to_features space_tokenizer 2 true false [foreign_type_example] john_labels =
    Raise (KeyError "FOO").
Proof.
  split; [|vm_compute; reflexivity].
  apply elem_of_cons. right. apply elem_of_cons. by left.
Qed.

(** C7 (amended): the conversion raises an error when some example's label
    is absent from [label_list]. When every label is present and, if
    [use_entity_type_token] is set, both entity types of every example are
    in [ENTITY_TYPES], it produces one feature record per example, in input
    order, whose label is the index of the example's label in [label_list]
    (its last occurrence, should the list repeat it). *)
Theorem C7_conversion_errors_and_labels (tokenizer : Tokenizer) (max_mention_length : nat)
    (use_entity_type_token use_marker_token : bool)
    (examples : list InputExample.t) (label_list : list string) :
  let r := convert_examples_to_features tokenizer max_mention_length use_entity_type_token
             use_marker_token examples label_list in
  ((exists ex, ex ∈ examples /\ InputExample.label ex ∉ label_list) ->
     exists e, r = Raise e) /\
  ((forall ex, ex ∈ examples ->
      InputExample.label ex ∈ label_list /\
      (use_entity_type_token = true ->
         InputExample.type_a ex ∈ ENTITY_TYPES /\ InputExample.type_b ex ∈ ENTITY_TYPES)) ->
   exists fs, r = Ok fs /\
     Forall2 (fun ex f =>
       convert_example tokenizer max_mention_length use_entity_type_token use_marker_token
         (label_map_of label_list) ex = Ok f /\
       label_list !! InputFeatures.label f = Some (InputExample.label ex) /\
       (forall j, label_list !! j = Some (InputExample.label ex) -> j <= InputFeatures.label f))
     examples fs).
Proof.
  intros r. split.
  - intros (ex & Hin & Hl). destruct r as [fs|e] eqn:Hr; [|by exists e].
    exfalso. apply Convert.mapM_Ok_Forall2 in Hr.
    apply list_elem_of_lookup in Hin as [i Hi].
    destruct (Forall2_lookup_l _ _ _ _ _ Hr Hi) as (f & _ & Hf).
    destruct (Convert.convert_example_Ok_inv _ _ _ _ _ ex f Hf) as [Hlm _].
    apply Convert.label_map_None in Hl. congruence.
  - intros Hall.
    assert (forall ex, ex ∈ examples -> exists f,
      convert_example tokenizer max_mention_length use_entity_type_token use_marker_token
        (label_map_of label_list) ex = Ok f /\
      label_list !! InputFeatures.label f = Some (InputExample.label ex) /\
      (forall j, label_list !! j = Some (InputExample.label ex) -> j <= InputFeatures.label f))
      as Hex.
    { intros ex Hin. destruct (Hall ex Hin) as [Hl Hty].
      destruct (label_map_of label_list !! InputExample.label ex) as [k|] eqn:Hk;
        [|by apply Convert.label_map_None in Hk].
      destruct (Convert.convert_example_Ok tokenizer max_mention_length use_entity_type_token
                  use_marker_token (label_map_of label_list) ex k) as (f & Hf & Hfl).
      { intros Hu. destruct (Hty Hu) as [Ha Hb].
        split; by apply Convert.type_map_complete. }
      { done. }
      apply Convert.label_map_lookup in Hk as [Hk Hmax].
      exists f. rewrite Hfl. done. }
    clear Hall. unfold r, convert_examples_to_features.
    induction examples as [|ex exs IH]; simpl.
    + exists []. split; [done|constructor].
    + destruct (Hex ex ltac:(by apply elem_of_cons; left)) as (f & Hf & Hf2).
      destruct IH as (fs & Hfs & Hall).
      { intros ex' Hin. apply Hex. by apply elem_of_cons; right. }
      rewrite Hf. simpl. rewrite Hfs. simpl. exists (f :: fs). split; [done|].
      constructor; [split; [done|exact Hf2]|exact Hall].
Qed.

(** The sub-tokens of one span's text. *)
Definition span_subtokens (tokenizer : Tokenizer) (ex : InputExample.t) (n : span_name) : list string :=
  tokenize tokenizer
    (str_slice (InputExample.text ex) (fst (getattr_span ex n)) (snd (getattr_span ex n))).

(** C9: with [use_marker_token], the final token sequence has a [HEAD]
    marker right before and right after the sub-tokens of span_a's text,
    and a [TAIL] marker right before and right after those of span_b's. *)
Theorem C9_markers_surround_entities (tokenizer : Tokenizer) (ex : InputExample.t) :
  let tokens := fst (encode_tokens tokenizer true ex) in
  (exists pre post,
     tokens = pre ++ [HEAD_TOKEN] ++ span_subtokens tokenizer ex SpanA ++ [HEAD_TOKEN] ++ post) /\
  (exists pre post,
     tokens = pre ++ [TAIL_TOKEN] ++ span_subtokens tokenizer ex SpanB ++ [TAIL_TOKEN] ++ post).
Proof.
  split.
  - destruct (Encoder.marker_layout tokenizer ex SpanA) as (pre & post & H & _).
    exists pre, post. exact H.
  - destruct (Encoder.marker_layout tokenizer ex SpanB) as (pre & post & H & _).
    exists pre, post. exact H.
Qed.

(** The index of a span's position ids in [entity_position_ids]. *)
Definition span_index (n : span_name) : nat := match n with SpanA => 0 | SpanB => 1 end.

(** C10 (counterexample): with markers and [max_mention_length = 2], the
    recorded range of span_a of the round-trip example is (1,4), its
    closing marker is the token at index 3, but its position ids are
    [[1; 2]]: they do not contain the closing marker's index. *)
Lemma C10_counterexample :
  exists f,
    convert_example space_tokenizer 2 false true (label_map_of john_labels) john_example = Ok f /\
    lookup_span (snd (encode_tokens space_tokenizer true john_example)) SpanA = Ok (1, 4) /\
    fst (encode_tokens space_tokenizer true john_example) !! 3 = Some HEAD_TOKEN /\
    InputFeatures.entity_position_ids f !! 0 = Some [1%Z; 2%Z] /\
    3%Z ∉ [1%Z; 2%Z].
Proof.
  set (r := convert_example space_tokenizer 2 false true (label_map_of john_labels) john_example).
  exists (match r with Ok f => f | Raise _ => InputFeatures.mk [] [] [] [] [] [] [] 0 end).
  split; [vm_compute; reflexivity|].
  split; [vm_compute; reflexivity|]. split; [vm_compute; reflexivity|].
  split; [vm_compute; reflexivity|].
  intros H. apply elem_of_cons in H as [H|H]; [discriminate|].
  apply list_elem_of_singleton in H. discriminate.
Qed.

(** C10 (amended): with [use_marker_token], the token range recorded for
    each span starts at the index of its opening marker and ends one past
    its closing marker (so it spans the sub-tokens plus two). Its position
    ids, that range truncated to [max_mention_length], contain the opening
    marker's index exactly when [max_mention_length >= 1] and the closing
    marker's index exactly when the range (sub-tokens plus two) has at most
    [max_mention_length] entries. *)
Theorem C10_marker_ranges (tokenizer : Tokenizer) (max_mention_length : nat)
    (use_entity_type_token : bool) (label_map : gmap string nat)
    (ex : InputExample.t) (f : InputFeatures.t) :
  convert_example tokenizer max_mention_length use_entity_type_token true label_map ex = Ok f ->
  forall n, exists s e p,
    lookup_span (snd (encode_tokens tokenizer true ex)) n = Ok (s, e) /\
    fst (encode_tokens tokenizer true ex) !! s = Some (marker n) /\
    fst (encode_tokens tokenizer true ex) !! (e - 1) = Some (marker n) /\
    e = s + length (span_subtokens tokenizer ex n) + 2 /\
    InputFeatures.entity_position_ids f !! span_index n = Some p /\
    (Z.of_nat s ∈ p <-> 1 <= max_mention_length) /\
    (Z.of_nat (e - 1) ∈ p <-> e - s <= max_mention_length).
Proof.
  intros Hf n.
  destruct (Convert.convert_example_Ok_inv _ _ _ _ _ ex f Hf) as (_ & ra & rb & Ha & Hb & Hp).
  destruct (Encoder.marker_layout tokenizer ex n) as (pre & post & Htok & Hr).
  fold (span_subtokens tokenizer ex n) in Htok, Hr.
  set (sub := span_subtokens tokenizer ex n) in *.
  exists (length pre), (length pre + length sub + 2),
    (position_ids_of max_mention_length (length pre, length pre + length sub + 2)).
  split; [done|]. rewrite Htok.
  split; [by rewrite lookup_app_r, Nat.sub_diag by lia|].
  split.
  { rewrite lookup_app_r by lia. rewrite lookup_app_r by (simpl; lia).
    rewrite lookup_app_r by (simpl; lia). simpl.
    replace (length pre + length sub + 2 - 1 - length pre - 1 - length sub) with 0 by lia.
    done. }
  split; [done|].
  split; [destruct n; simpl; rewrite Hp; [rewrite Ha in Hr|rewrite Hb in Hr];
          injection Hr as ->; done|].
  destruct (Encoder.position_ids_of_spec max_mention_length
              (length pre, length pre + length sub + 2) ltac:(simpl; lia)) as [Ep _].
  rewrite Ep. unfold Encoder.padded_range. simpl fst; simpl snd.
  assert (forall x, Z.of_nat x ∈ map Z.of_nat (seq (length pre) (Nat.min (length pre + length sub + 2 - length pre) max_mention_length))
            ++ repeat (-1)%Z (max_mention_length - (length pre + length sub + 2 - length pre)) <->
          length pre <= x < length pre + Nat.min (length sub + 2) max_mention_length) as Hmem.
  { intros x. rewrite elem_of_app, !list_elem_of_In, in_map_iff.
    replace (length pre + length sub + 2 - length pre) with (length sub + 2) by lia.
    split.
    - intros [(y & Hy & Hin)|Hrep].
      + apply Nat2Z.inj in Hy. subst y. apply in_seq in Hin. lia.
      + apply repeat_spec in Hrep. lia.
    - intros Hx. left. exists x. split; [done|]. apply in_seq. lia. }
  rewrite !Hmem. split; split; intros; lia.
Qed.

(** Witness of C10: the round-trip example, markers on, two slots. *)
Lemma C10_marker_ranges_witness :
  exists f,
    convert_example space_tokenizer 2 false true (label_map_of john_labels) john_example = Ok f /\
    exists s e p,
      lookup_span (snd (encode_tokens space_tokenizer true john_example)) SpanA = Ok (s, e) /\
      InputFeatures.entity_position_ids f !! 0 = Some p /\
      (Z.of_nat s ∈ p <-> 1 <= 2).
Proof.
  set (r := convert_example space_tokenizer 2 false true (label_map_of john_labels) john_example).
  exists (match r with Ok f => f | Raise _ => InputFeatures.mk [] [] [] [] [] [] [] 0 end).
  assert (r = Ok (match r with Ok f => f | Raise _ => InputFeatures.mk [] [] [] [] [] [] [] 0 end))
    as Hr by (vm_compute; reflexivity).
  split; [exact Hr|].
  destruct (C10_marker_ranges space_tokenizer 2 false (label_map_of john_labels) john_example _ Hr SpanA)
    as (s & e & p & H1 & _ & _ & _ & H5 & H6 & _).
  exists s, e, p. split; [exact H1|]. split; [exact H5|exact H6].
Defined.

(* ================================================================== *)
(** * Further properties of the code *)

(** Example ids: reading back the decimal numeral of an index. *)
Module Ids.
Import StrFacts.

Lemma digits_aux_acc fuel n acc : digits_aux fuel n acc = digits_aux fuel n "" +:+ acc.
Proof.
  revert n acc. induction fuel as [|f IH]; intros n acc; simpl; [done|].
  destruct (n <? 10).
  - rewrite !app_cons, !app_nil_l. done.
  - rewrite (IH _ (_ +:+ acc)), (IH _ (_ +:+ "")), app_nil_r, app_assoc. done.
Qed.

Lemma digits_aux_fuel f f' n acc :
  n < f -> n < f' -> digits_aux f n acc = digits_aux f' n acc.
Proof.
  revert f' n acc. induction f as [|f IH]; intros [|f'] n acc H H'; try lia. cbn [digits_aux].
  destruct (Nat.ltb_spec n 10); [done|].
  assert (n / 10 < n) by (apply Nat.div_lt; lia). apply IH; lia.
Qed.

Definition digit (k : nat) : string := String.String (ascii_of_nat (48 + k)) "".

Lemma str_of_nat_small n : n < 10 -> str_of_nat n = digit n.
Proof.
  intros H. unfold str_of_nat. cbn [digits_aux]. rewrite (proj2 (Nat.ltb_lt n 10) H).
  rewrite Nat.mod_small by done. apply app_nil_r.
Qed.

Lemma str_of_nat_step n : 10 <= n -> str_of_nat n = str_of_nat (n / 10) +:+ digit (n mod 10).
Proof.
  intros H. unfold str_of_nat at 1. simpl (digits_aux (S n) n "").
  assert ((n <? 10) = false) as -> by (apply Nat.ltb_ge; lia).
  assert (n / 10 < n) by (apply Nat.div_lt; lia).
  rewrite digits_aux_acc, app_nil_r. f_equal. apply digits_aux_fuel; lia.
Qed.

(** Reading back a decimal numeral. *)
Fixpoint dec_aux (s : string) (v : nat) : nat :=
  match s with
  | String.EmptyString => v
  | String.String c s' => dec_aux s' (v * 10 + (nat_of_ascii c - 48))
  end.

Lemma dec_aux_app s t v : dec_aux (s +:+ t) v = dec_aux t (dec_aux s v).
Proof. revert v. induction s as [|c s IH]; intros v; [done|]. rewrite app_cons. apply IH. Qed.

Lemma dec_digit k v : k < 10 -> dec_aux (digit k) v = v * 10 + k.
Proof.
  intros H. unfold digit. cbn [dec_aux]. rewrite nat_ascii_embedding by lia. lia.
Qed.

Lemma dec_str_of_nat n : dec_aux (str_of_nat n) 0 = n.
Proof.
  induction n as [n IH] using lt_wf_ind.
  destruct (Nat.lt_ge_cases n 10) as [H|H].
  - rewrite str_of_nat_small, dec_digit by done. lia.
  - rewrite str_of_nat_step, dec_aux_app, IH, dec_digit by (try apply Nat.mod_upper_bound; try apply Nat.div_lt; lia).
    pose proof (Nat.div_mod n 10). lia.
Qed.

Lemma str_of_nat_inj n m : str_of_nat n = str_of_nat m -> n = m.
Proof. intros H. rewrite <- (dec_str_of_nat n), <- (dec_str_of_nat m), H. done. Qed.

Lemma app_inv_l (a b c : string) : a +:+ b = a +:+ c -> b = c.
Proof. induction a as [|x a IH]; [done|]. rewrite !app_cons. intros [= H]. auto. Qed.

Lemma create_example_id set_type i item :
  InputExample.id_ (create_example set_type i item) = set_type +:+ "-" +:+ str_of_nat i.
Proof. unfold create_example. destruct (build_loop item) as [[? ?] ?]. done. Qed.

Lemma create_examples_ids set_type data :
  map InputExample.id_ (create_examples set_type data) =
  map (fun i => set_type +:+ "-" +:+ str_of_nat i) (seq 0 (length data)).
Proof.
  unfold create_examples.
  assert (forall k, map InputExample.id_ (imap (fun i => create_example set_type (k + i)) data) =
    map (fun i => set_type +:+ "-" +:+ str_of_nat i) (seq k (length data))) as H.
  { induction data as [|x data IH]; intros k; [done|]. simpl.
    rewrite create_example_id, Nat.add_0_r. f_equal.
    rewrite <- IH. f_equal. apply imap_ext. intros j y _. simpl. f_equal. lia. }
  apply (H 0).
Qed.

Lemma ids_distinct set_type data : NoDup (map InputExample.id_ (create_examples set_type data)).
Proof.
  rewrite create_examples_ids. apply NoDup_fmap_2; [|apply NoDup_seq].
  intros i j H. apply str_of_nat_inj. apply (app_inv_l (set_type +:+ "-")).
  rewrite !app_assoc. exact H.
Qed.

End Ids.

(** X1: the examples of one split have pairwise distinct ids: the i-th one
    is ['%s-%s' % (set_type, i)] and distinct indices give distinct
    decimal numerals. *)
Theorem X_ids_distinct (set_type : string) (data : list Item.t) :
  NoDup (map InputExample.id_ (create_examples set_type data)).
Proof. apply Ids.ids_distinct. Qed.

(** The rebuilt text of an example. *)
Module TextFacts.
Import StrFacts.

Lemma join_app (l1 l2 : list string) :
  l1 <> [] -> l2 <> [] -> join " " (l1 ++ l2)%list = join " " l1 +:+ " " +:+ join " " l2.
Proof.
  intros H1 H2. induction l1 as [|x [|y l1] IH]; [done| |].
  - destruct l2 as [|z l2]; [done|]. reflexivity.
  - change ((x :: y :: l1) ++ l2) with (x :: y :: (l1 ++ l2)).
    rewrite !join_cons2.
    change (y :: l1 ++ l2) with ((y :: l1) ++ l2). rewrite IH by done.
    rewrite !app_assoc. done.
Qed.

Lemma drop_split {A} (l : list A) a b : a <= b -> drop a l = list_slice l a b ++ drop b l.
Proof.
  intros H. unfold list_slice. rewrite <- (take_drop (b - a) (drop a l)) at 1.
  rewrite drop_drop. do 2 f_equal. lia.
Qed.

Lemma join_ne (l : list string) : l <> [] -> Forall ok_token l -> join " " l <> "".
Proof. intros. by apply rstrip_join. Qed.

Lemma rstrip_tail (l1 l2 : list string) :
  l1 <> [] -> Forall ok_token (l1 ++ l2) ->
  rstrip (join " " l1 +:+ " " +:+ join " " l2) = join " " (l1 ++ l2)%list.
Proof.
  intros H1 Hok. apply Forall_app in Hok as [Hok1 Hok2].
  destruct l2 as [|z l2].
  - change (join " " []) with "". rewrite app_nil_r, rstrip_app, rstrip_space. simpl.
    rewrite List.app_nil_r. by apply rstrip_join.
  - rewrite <- join_app by done. apply rstrip_join; [|by apply Forall_app].
    destruct l1; done.
Qed.

Lemma rstrip_keep (a b : string) : rstrip b <> "" -> rstrip (a +:+ b) = a +:+ rstrip b.
Proof.
  intros H. rewrite rstrip_app. destruct (String.eqb_spec (rstrip b) ""); done.
Qed.

Lemma eqb_join_empty (l : list string) :
  Forall ok_token l -> String.eqb (join " " l) "" = bool_decide (l = []).
Proof.
  intros Hok. destruct l as [|x l]; [done|].
  rewrite bool_decide_eq_false_2 by done.
  apply String.eqb_neq. by apply join_ne.
Qed.

(** The text of an example built from hypotheses on its two ordered token
    spans: the space-join of the tokens up to the end of the first entity,
    one space, a second one if the second entity starts right there, and
    the space-join of the rest. *)
Lemma create_example_text (set_type : string) (i : nat) (item : Item.t) (e1 e2 : entity) a1 b1 a2 b2 :
  entity_order item = [e1; e2] ->
  token_spans_of item e1 = (a1, b1) -> token_spans_of item e2 = (a2, b2) ->
  a1 < b1 -> b1 <= a2 -> a2 < b2 -> b2 <= length (Item.token item) ->
  Forall ok_token (Item.token item) ->
  InputExample.text (create_example set_type i item) =
    join " " (take b1 (Item.token item)) +:+ " " +:+ (if b1 =? a2 then " " else "") +:+
    join " " (drop b1 (Item.token item)).
Proof.
  intros Ho H1 H2 Hab1 Hb1a2 Hab2 Hn Hok.
  assert (entity_eqb e1 e2 = false) as Hne.
  { unfold entity_order in Ho. destruct (_ <? _); injection Ho as <- <-; done. }
  unfold create_example. destruct (build_loop item) as [[text cur] cs] eqn:Hb.
  unfold build_loop in Hb. rewrite Ho in Hb.
  destruct (Builder.build_two item e1 e2 a1 b1 a2 b2 _ Hne H1 H2 _ _ _ Hb) as (-> & -> & _ & _).
  cbn [InputExample.text].
  set (tokens := Item.token item) in *.
  set (P := list_slice tokens 0 a1). set (S1 := list_slice tokens a1 b1).
  set (M := list_slice tokens b1 a2). set (S2 := list_slice tokens a2 b2).
  set (R := drop b2 tokens).
  assert (take b1 tokens = P ++ S1) as HT.
  { unfold P, S1, list_slice. rewrite !drop_0, Nat.sub_0_r, take_take_drop. f_equal. lia. }
  assert (drop b1 tokens = M ++ S2 ++ R) as HD.
  { unfold M, S2, R. rewrite (drop_split tokens b1 a2), (drop_split tokens a2 b2) by lia. done. }
  assert (Forall ok_token (P ++ S1)) as HokT by (rewrite <- HT; by apply Forall_take).
  assert (Forall ok_token (M ++ S2 ++ R)) as HokD by (rewrite <- HD; by apply Forall_drop).
  assert (S1 <> []) as HS1 by (apply Builder.list_slice_nonempty; lia).
  assert (S2 <> []) as HS2 by (apply Builder.list_slice_nonempty; lia).
  apply Forall_app in HokT as [HokP HokS1].
  apply Forall_app in HokD as [HokM HokD]. apply Forall_app in HokD as [HokS2 HokR].
  (* the text before the first entity and the first entity *)
  assert ((if negb (String.eqb (join " " P) "") then join " " P +:+ " " else join " " P) +:+
          join " " S1 = join " " (P ++ S1)%list) as HPS.
  { rewrite eqb_join_empty by done. clearbody P. destruct (decide (P = [])) as [->|HP].
    - rewrite bool_decide_eq_true_2 by done. reflexivity.
    - rewrite bool_decide_eq_false_2 by done. simpl. rewrite join_app by done. by rewrite app_assoc. }
  rewrite HT, HD.
  assert (rstrip (join " " S2 +:+ " " +:+ join " " R) = join " " (S2 ++ R)%list) as HB.
  { apply rstrip_tail; [done|by apply Forall_app]. }
  assert (join " " (S2 ++ R)%list <> "") as HBne.
  { apply join_ne; [destruct S2; done|by apply Forall_app]. }
  fold P S1 M S2.
  set (T2 := if negb (String.eqb (join " " P) "") then join " " P +:+ " " else join " " P) in *.
  match goal with |- rstrip ?pre = _ =>
    assert (pre = ((T2 +:+ join " " S1) +:+ " " +:+ join " " M +:+ " ") +:+
                  (join " " S2 +:+ " " +:+ join " " R)) as -> by (rewrite !app_assoc; reflexivity)
  end.
  rewrite rstrip_keep, HB, HPS by (rewrite HB; done).
  destruct (Nat.eqb_spec b1 a2) as [Heq|Hlt].
  - assert (M = []) as ->.
    { unfold M, list_slice. rewrite Heq, Nat.sub_diag. done. }
    rewrite !app_assoc. reflexivity.
  - assert (M <> []) as HM by (apply Builder.list_slice_nonempty; lia).
    rewrite (join_app M) by (destruct S2; done).
    rewrite !app_assoc. reflexivity.
Qed.
End TextFacts.

(** X2: for a record with in-bounds, non-overlapping token spans of
    non-empty whitespace-free tokens, the rebuilt text is [' '.join(tokens)]
    when neither entity starts right after the other ends; when one does,
    at that token boundary the text has two spaces instead of one. *)
Theorem X_text_is_join (set_type : string) (i : nat) (item : Item.t) :
  let tokens := Item.token item in
  Item.subj_start item <= Item.subj_end item < length tokens ->
  Item.obj_start item <= Item.obj_end item < length tokens ->
  Item.subj_end item < Item.obj_start item \/ Item.obj_end item < Item.subj_start item ->
  Forall ok_token tokens ->
  let text := InputExample.text (create_example set_type i item) in
  (Item.subj_end item + 1 <> Item.obj_start item -> Item.obj_end item + 1 <> Item.subj_start item ->
     text = join " " tokens) /\
  (forall b, (b = Item.subj_end item + 1 /\ b = Item.obj_start item) \/
             (b = Item.obj_end item + 1 /\ b = Item.subj_start item) ->
     text = join " " (take b tokens) +:+ "  " +:+ join " " (drop b tokens)).
Proof.
  intros tokens Hs Ho Hdis Hok text. subst text.
  assert (forall b, 0 < b < length tokens ->
            join " " (take b tokens) +:+ " " +:+ "" +:+ join " " (drop b tokens) = join " " tokens) as Hj.
  { intros b Hb. rewrite StrFacts.app_nil_l, <- TextFacts.join_app, take_drop; [done| |].
    - intros Ht. assert (length (take b tokens) = 0) as Hl by (by rewrite Ht).
      rewrite length_take in Hl. lia.
    - intros Ht. assert (length (drop b tokens) = 0) as Hl by (by rewrite Ht).
      rewrite length_drop in Hl. lia. }
  destruct (Nat.ltb_spec (Item.subj_start item) (Item.obj_start item)) as [Hlt|Hge].
  - assert (entity_order item = [subj; obj]) as Hord.
    { unfold entity_order. simpl. apply Nat.ltb_lt in Hlt. by rewrite Hlt. }
    rewrite (TextFacts.create_example_text set_type i item subj obj _ _ _ _ Hord eq_refl eq_refl)
      by (unfold tokens in *; lia || done).
    split.
    + intros Hna _. rewrite (proj2 (Nat.eqb_neq _ _) Hna). apply Hj. unfold tokens in *. lia.
    + intros b [[-> Hb]|[Hb1 Hb2]]; [|lia].
      rewrite (proj2 (Nat.eqb_eq _ _) Hb). reflexivity.
  - assert (entity_order item = [obj; subj]) as Hord.
    { unfold entity_order. simpl. apply Nat.ltb_ge in Hge. by rewrite Hge. }
    rewrite (TextFacts.create_example_text set_type i item obj subj _ _ _ _ Hord eq_refl eq_refl)
      by (unfold tokens in *; lia || done).
    split.
    + intros _ Hna. rewrite (proj2 (Nat.eqb_neq _ _) Hna). apply Hj. unfold tokens in *. lia.
    + intros b [[Hb1 Hb2]|[-> Hb]]; [lia|].
      rewrite (proj2 (Nat.eqb_eq _ _) Hb). reflexivity.
Qed.

(** X3: on an example built from any record, the encoder processes
    span_a first exactly when the builder placed subj first, i.e. when
    [subj_start < obj_start]. *)
Theorem X_span_order_agrees (set_type : string) (i : nat) (item : Item.t) :
  span_order (create_example set_type i item) =
    if Item.subj_start item <? Item.obj_start item then [SpanA; SpanB] else [SpanB; SpanA].
Proof.
  destruct (create_example_spans set_type i item) as [H1 H2].
  unfold span_order.
  destruct (Nat.ltb_spec (Item.subj_start item) (Item.obj_start item)) as [H|H].
  - apply H1 in H. rewrite (proj2 (Nat.ltb_lt _ _)) by lia. done.
  - apply H2 in H. rewrite (proj2 (Nat.ltb_ge _ _)) by lia. done.
Qed.

(** String slices that split a text. *)
Module Slices.
Import StrFacts.

Lemma substring_past (s : string) n m : String.length s <= n -> String.substring n m s = "".
Proof.
  revert n. induction s as [|c s IH]; intros [|n] H; simpl in *; try lia; try (destruct m; done).
  apply IH. lia.
Qed.

Lemma substring_split (s : string) n m k :
  String.substring n (m + k) s = String.substring n m s +:+ String.substring (n + m) k s.
Proof.
  revert n m. induction s as [|c s IH]; intros [|n] m.
  - destruct m, k; done.
  - destruct m, k; done.
  - destruct m as [|m]; simpl; [done|]. rewrite app_cons. f_equal. apply (IH 0).
  - simpl. apply IH.
Qed.

Lemma slice_from (s : string) a b :
  a <= b -> str_slice s a b +:+ str_from s b = str_from s a.
Proof.
  intros Hab. unfold str_slice, str_from.
  destruct (Nat.le_gt_cases b (String.length s)) as [Hb|Hb].
  - replace (String.length s - a) with ((b - a) + (String.length s - b)) by lia.
    rewrite substring_split. replace (a + (b - a)) with b by lia. done.
  - rewrite (substring_past s b) by lia. rewrite app_nil_r.
    destruct (Nat.le_gt_cases a (String.length s)) as [Ha|Ha].
    + replace (b - a) with ((String.length s - a) + (b - String.length s)) by lia.
      rewrite substring_split, (substring_past s (a + _)) by lia. apply app_nil_r.
    + rewrite !substring_past by lia. done.
Qed.

Lemma from_0 (s : string) : str_from s 0 = s.
Proof. unfold str_from. apply substring_whole. lia. Qed.

(** The five pieces of the text at two ordered spans make up the text. *)
Lemma five_pieces (s : string) a1 b1 a2 b2 :
  a1 <= b1 <= a2 -> a2 <= b2 ->
  str_slice s 0 a1 +:+ str_slice s a1 b1 +:+ str_slice s b1 a2 +:+ str_slice s a2 b2 +:+ str_from s b2 = s.
Proof.
  intros H1 H2.
  rewrite (slice_from s a2 b2), (slice_from s b1 a2), (slice_from s a1 b1), (slice_from s 0 a1)
    by lia. apply from_0.
Qed.

End Slices.

(** X4: on an example built from any record, the encoder tokenizes five
    consecutive pieces of the text that together are exactly the text (no
    character dropped or tokenized twice); the second and fourth are the
    slices at the entities' spans, each framed by its markers when
    [use_marker_token] is set, between [cls_token] and [sep_token]. *)
Theorem X_encoder_pieces (tokenizer : Tokenizer) (use_marker_token : bool)
    (set_type : string) (i : nat) (item : Item.t) :
  let ex := create_example set_type i item in
  let text := InputExample.text ex in
  exists n1 n2 p0 p1 p2 p3 p4,
    span_order ex = [n1; n2] /\ n1 <> n2 /\
    p1 = str_slice text (fst (getattr_span ex n1)) (snd (getattr_span ex n1)) /\
    p3 = str_slice text (fst (getattr_span ex n2)) (snd (getattr_span ex n2)) /\
    p0 +:+ p1 +:+ p2 +:+ p3 +:+ p4 = text /\
    fst (encode_tokens tokenizer use_marker_token ex) =
      [cls_token tokenizer] ++ tokenize tokenizer p0 ++
      Encoder.mk use_marker_token n1 ++ tokenize tokenizer p1 ++ Encoder.mk use_marker_token n1 ++
      tokenize tokenizer p2 ++
      Encoder.mk use_marker_token n2 ++ tokenize tokenizer p3 ++ Encoder.mk use_marker_token n2 ++
      tokenize tokenizer p4 ++ [sep_token tokenizer].
Proof.
  intros ex text.
  assert (exists n1 n2, span_order ex = [n1; n2] /\ n1 <> n2 /\
            fst (getattr_span ex n1) <= snd (getattr_span ex n1) <= fst (getattr_span ex n2) /\
            fst (getattr_span ex n2) <= snd (getattr_span ex n2)) as (n1 & n2 & Ho & Hne & Hle1 & Hle2).
  { unfold ex. rewrite X_span_order_agrees.
    destruct (create_example_spans set_type i item) as [H1 H2].
    destruct (Nat.ltb_spec (Item.subj_start item) (Item.obj_start item)) as [H|H].
    - exists SpanA, SpanB. apply H1 in H. simpl. repeat split; try done; lia.
    - exists SpanB, SpanA. apply H2 in H. simpl. repeat split; try done; lia. }
  rewrite (Encoder.encode_tokens_shape tokenizer use_marker_token ex n1 n2 Ho).
  do 7 eexists. split; [exact Ho|]. split; [exact Hne|]. split; [reflexivity|]. split; [reflexivity|].
  split.
  - apply Slices.five_pieces; lia.
  - cbn [fst]. rewrite <- !app_assoc. reflexivity.
Qed.

(** The fields of a feature record. *)
Module Features.

Lemma type_map_values (t : string) (v : Z) :
  type_map !! t = Some v -> exists k, ENTITY_TYPES !! k = Some t /\ v = Z.of_nat (k + 1).
Proof.
  assert (map_Forall (fun t v => ENTITY_TYPES !! (Z.to_nat v - 1) = Some t /\ (1 <= v)%Z) type_map) as Hall.
  { apply (bool_decide_unpack _). vm_compute. reflexivity. }
  intros Ht. destruct (Hall t v Ht) as [Hk Hv]. exists (Z.to_nat v - 1). split; [done|lia].
Qed.

Lemma ENTITY_TYPES_NoDup : NoDup ENTITY_TYPES.
Proof. apply (bool_decide_unpack _). vm_compute. reflexivity. Qed.

Section Conv.
Variable tokenizer : Tokenizer.
Variable max_mention_length : nat.
Variable use_entity_type_token : bool.
Variable use_marker_token : bool.
Variable label_map : gmap string nat.

(** Every field of a feature record produced from an example. *)
Lemma convert_example_fields (ex : InputExample.t) (f : InputFeatures.t) :
  convert_example tokenizer max_mention_length use_entity_type_token use_marker_token
    label_map ex = Ok f ->
  let tokens := fst (encode_tokens tokenizer use_marker_token ex) in
  InputFeatures.word_ids f = convert_tokens_to_ids tokenizer tokens /\
  InputFeatures.word_segment_ids f = repeat 0%Z (length tokens) /\
  InputFeatures.word_attention_mask f = repeat 1%Z (length tokens) /\
  (if use_entity_type_token then
     exists ta tb, type_map !! InputExample.type_a ex = Some ta /\
       type_map !! InputExample.type_b ex = Some tb /\ InputFeatures.entity_ids f = [ta; tb]
   else InputFeatures.entity_ids f = [1%Z; 1%Z]) /\
  InputFeatures.entity_segment_ids f = [0%Z; 0%Z] /\
  InputFeatures.entity_attention_mask f = [1%Z; 1%Z].
Proof.
  unfold convert_example. destruct (encode_tokens tokenizer use_marker_token ex) as [tokens ts].
  cbn [fst]. intros H.
  destruct use_entity_type_token;
    [unfold getitem in H;
     destruct (type_map !! InputExample.type_a ex) as [ta|] eqn:Ha;
     [destruct (type_map !! InputExample.type_b ex) as [tb|] eqn:Hb|]|];
    simpl in H; try discriminate;
    (destruct (lookup_span ts SpanA) as [ra|] eqn:HA; simpl in H; [|discriminate]);
    (destruct (lookup_span ts SpanB) as [rb|] eqn:HB; simpl in H; [|discriminate]);
    unfold getitem in H; destruct (label_map !! InputExample.label ex) eqn:Hl;
    simpl in H; try discriminate;
    injection H as <-; simpl; repeat split; eauto.
Qed.

End Conv.

Lemma in_position_ids (M : nat) (r : nat * nat) (p : Z) :
  p ∈ position_ids_of M r -> p = (-1)%Z \/ (Z.of_nat (fst r) <= p < Z.of_nat (snd r))%Z.
Proof.
  unfold position_ids_of. rewrite elem_of_app. intros [H|H].
  - right. apply elem_of_take in H as (j & Hj & _).
    rewrite list_lookup_fmap in Hj.
    destruct (seq (fst r) (snd r - fst r) !! j) as [q|] eqn:Hq; simpl in Hj; [|discriminate].
    injection Hj as <-. apply lookup_seq in Hq as [-> Hlt]. lia.
  - left. apply list_elem_of_In, repeat_spec in H. done.
Qed.

(** Both recorded token ranges lie strictly between the leading [cls_token]
    and the trailing [sep_token]. *)
Lemma ranges_inside (tokenizer : Tokenizer) (use_marker_token : bool) (ex : InputExample.t) n r :
  lookup_span (snd (encode_tokens tokenizer use_marker_token ex)) n = Ok r ->
  1 <= fst r <= snd r /\ snd r + 1 <= length (fst (encode_tokens tokenizer use_marker_token ex)).
Proof.
  destruct (Encoder.span_order_cases ex) as [[_ Ho]|[_ Ho]];
    rewrite (Encoder.encode_tokens_shape tokenizer use_marker_token ex _ _ Ho); cbn [fst snd];
    destruct n; simpl; intros [= <-]; simpl; rewrite ?length_app; simpl; rewrite ?length_app; lia.
Qed.

End Features.


(** X6: without [use_entity_type_token] both entity ids are 1; with it,
    each entity id is one plus the index of the entity's type in
    [ENTITY_TYPES], so it lies in 1..17 and 0 stays free for padding. *)
Theorem X_entity_ids (tokenizer : Tokenizer) (max_mention_length : nat)
    (use_entity_type_token use_marker_token : bool)
    (examples : list InputExample.t) (label_list : list string) (fs : list InputFeatures.t) :
  convert_examples_to_features tokenizer max_mention_length use_entity_type_token
    use_marker_token examples label_list = Ok fs ->
  Forall2 (fun ex f =>
    if use_entity_type_token then
      exists ka kb, ENTITY_TYPES !! ka = Some (InputExample.type_a ex) /\
        ENTITY_TYPES !! kb = Some (InputExample.type_b ex) /\
        InputFeatures.entity_ids f = [Z.of_nat (ka + 1); Z.of_nat (kb + 1)]
    else InputFeatures.entity_ids f = [1%Z; 1%Z]) examples fs.
Proof.
  intros H. apply Convert.mapM_Ok_Forall2 in H.
  eapply Forall2_impl; [exact H|]. intros ex f Hf.
  destruct (Features.convert_example_fields _ _ _ _ _ ex f Hf) as (_ & _ & _ & He & _).
  destruct use_entity_type_token; [|done].
  destruct He as (ta & tb & Ha & Hb & ->).
  apply Features.type_map_values in Ha as (ka & Hka & ->).
  apply Features.type_map_values in Hb as (kb & Hkb & ->).
  eauto.
Qed.

(** X7: every entity position id of every feature is either the -1
    padding or the index of a token strictly between the leading
    [cls_token] and the trailing [sep_token]. *)
Theorem X_positions_inside (tokenizer : Tokenizer) (max_mention_length : nat)
    (use_entity_type_token use_marker_token : bool)
    (examples : list InputExample.t) (label_list : list string) (fs : list InputFeatures.t) :
  convert_examples_to_features tokenizer max_mention_length use_entity_type_token
    use_marker_token examples label_list = Ok fs ->
  Forall (fun f =>
    Forall (fun ids => Forall (fun p => p = (-1)%Z \/
        (1 <= p /\ p + 2 <= Z.of_nat (length (InputFeatures.word_attention_mask f)))%Z) ids)
      (InputFeatures.entity_position_ids f)) fs.
Proof.
  intros H. apply Convert.mapM_Ok_Forall2 in H.
  induction H as [|ex f exs fs' Hf _ IH]; constructor; [|done].
  destruct (Features.convert_example_fields _ _ _ _ _ ex f Hf) as (_ & _ & Hm & _).
  destruct (Convert.convert_example_Ok_inv _ _ _ _ _ ex f Hf) as (_ & ra & rb & Ha & Hb & ->).
  rewrite Hm, repeat_length.
  pose proof (Features.ranges_inside tokenizer use_marker_token ex _ _ Ha) as Ia.
  pose proof (Features.ranges_inside tokenizer use_marker_token ex _ _ Hb) as Ib.
  repeat constructor; apply Forall_forall; intros p Hp;
    apply Features.in_position_ids in Hp as [->|Hp]; auto; right; lia.
Qed.

(** The vocabulary used by the conversion. *)
Module Vocab.

Lemma label_list_shape (train : list InputExample.t) :
  NoDup (get_label_list train) /\
  get_label_list train !! 0 = Some "no_relation" /\
  (forall l, l ∈ get_label_list train <->
     l = "no_relation" \/ exists ex, ex ∈ train /\ InputExample.label ex = l).
Proof.
  unfold get_label_list.
  set (S := foldl (fun (s : gset string) ex => {[ InputExample.label ex ]} ∪ s) ∅ train).
  assert (forall l, l ∈ merge_sort String.le (elements (S ∖ {["no_relation"]})) <->
            l ∈ S /\ l <> "no_relation") as Hin.
  { intros l. rewrite merge_sort_Permutation, elem_of_elements, elem_of_difference,
      elem_of_singleton. done. }
  split; [|split; [done|]].
  - apply NoDup_cons. split.
    + rewrite Hin. tauto.
    + rewrite merge_sort_Permutation. apply NoDup_elements.
  - intros l. rewrite elem_of_cons, Hin. unfold S. rewrite Labels.foldl_labels.
    split.
    + intros [->|[[H|H] _]]; [by left|by apply not_elem_of_empty in H|by right].
    + intros [->|H]; [by left|]. destruct (decide (l = "no_relation")) as [->|Hne]; [by left|].
      right. split; [by right|done].
Qed.

Lemma mapM_Ok_exists {A B} (f : A -> result B) (P : A -> B -> Prop) (l : list A) :
  Forall (fun x => exists y, f x = Ok y /\ P x y) l ->
  exists l', mapM f l = Ok l' /\ Forall2 P l l'.
Proof.
  induction 1 as [|x l (y & Hy & Py) _ (l' & Hl' & Pl')]; [by exists []|].
  exists (y :: l'). simpl. rewrite Hy, Hl'. split; [done|by constructor].
Qed.

Lemma vocabulary_labels (tokenizer : Tokenizer) (max_mention_length : nat)
    (use_entity_type_token use_marker_token : bool) (train examples : list InputExample.t) :
  Forall (fun ex =>
    (InputExample.label ex = "no_relation" \/
     exists t, t ∈ train /\ InputExample.label t = InputExample.label ex) /\
    (use_entity_type_token = true ->
       InputExample.type_a ex ∈ ENTITY_TYPES /\ InputExample.type_b ex ∈ ENTITY_TYPES)) examples ->
  let label_list := get_label_list train in
  exists fs,
    convert_examples_to_features tokenizer max_mention_length use_entity_type_token
      use_marker_token examples label_list = Ok fs /\
    Forall2 (fun ex f => label_list !! InputFeatures.label f = Some (InputExample.label ex) /\
      (InputFeatures.label f = 0 <-> InputExample.label ex = "no_relation")) examples fs.
Proof.
  intros Hall label_list.
  destruct (Vocab.label_list_shape train) as (Hnd & H0 & Hmem). fold label_list in Hnd, H0, Hmem.
  apply Vocab.mapM_Ok_exists. eapply Forall_impl; [exact Hall|]. intros ex [Hl Hty].
  assert (InputExample.label ex ∈ label_list) as Hin.
  { apply Hmem. destruct Hl as [->|(t & Ht & Hlt)]; [by left|right; eauto]. }
  destruct (label_map_of label_list !! InputExample.label ex) as [k|] eqn:Hk.
  2:{ apply Convert.label_map_None in Hk. done. }
  destruct (Convert.convert_example_Ok tokenizer max_mention_length use_entity_type_token
              use_marker_token (label_map_of label_list) ex k) as (f & Hf & Hfk); [| done |].
  { intros Hu. destruct (Hty Hu) as [Ha Hb].
    split; apply Convert.type_map_complete; done. }
  exists f. split; [exact Hf|]. rewrite Hfk.
  apply Convert.label_map_lookup in Hk as [Hk _]. split; [done|].
  split.
  - intros ->. rewrite H0 in Hk. by injection Hk.
  - intros Hno. rewrite Hno in Hk. eapply NoDup_lookup; [exact Hnd|exact Hk|exact H0].
Qed.

End Vocab.

(** X8: with the vocabulary built from a training set, converting examples
    whose labels are "no_relation" or occur in the training set (and whose
    types are in [ENTITY_TYPES] when type ids are used) succeeds; each
    feature's label indexes the example's label in the vocabulary, and it
    is 0 exactly for "no_relation". *)
Theorem X_vocabulary_labels (tokenizer : Tokenizer) (max_mention_length : nat)
    (use_entity_type_token use_marker_token : bool) (train examples : list InputExample.t) :
  Forall (fun ex =>
    (InputExample.label ex = "no_relation" \/
     exists t, t ∈ train /\ InputExample.label t = InputExample.label ex) /\
    (use_entity_type_token = true ->
       InputExample.type_a ex ∈ ENTITY_TYPES /\ InputExample.type_b ex ∈ ENTITY_TYPES)) examples ->
  let label_list := get_label_list train in
  exists fs,
    convert_examples_to_features tokenizer max_mention_length use_entity_type_token
      use_marker_token examples label_list = Ok fs /\
    Forall2 (fun ex f => label_list !! InputFeatures.label f = Some (InputExample.label ex) /\
      (InputFeatures.label f = 0 <-> InputExample.label ex = "no_relation")) examples fs.
Proof. apply Vocab.vocabulary_labels. Qed.

(** X9: converting a concatenation of two example lists is converting each
    and concatenating the features; the first error raised wins. *)
Theorem X_batch_concat (tokenizer : Tokenizer) (max_mention_length : nat)
    (use_entity_type_token use_marker_token : bool)
    (l1 l2 : list InputExample.t) (label_list : list string) :
  let conv l := convert_examples_to_features tokenizer max_mention_length use_entity_type_token
      use_marker_token l label_list in
  conv (l1 ++ l2) = (let* a := conv l1 in let* b := conv l2 in Ok (a ++ b)).
Proof.
  intros conv. unfold conv, convert_examples_to_features.
  induction l1 as [|x l1 IH]; simpl.
  - destruct (mapM _ l2); done.
  - rewrite IH. destruct (convert_example _ _ _ _ _ x); simpl; [|done].
    destruct (mapM _ l1); simpl; [|done]. destruct (mapM _ l2); done.
Qed.

(** X10: the vocabulary depends only on the set of training labels: the
    order and the repetitions of the training examples do not matter. *)
Theorem X_label_list_label_set (a b : list InputExample.t) :
  (forall l, (exists ex, ex ∈ a /\ InputExample.label ex = l) <->
             (exists ex, ex ∈ b /\ InputExample.label ex = l)) ->
  get_label_list a = get_label_list b.
Proof.
  intros H. unfold get_label_list. do 4 f_equal.
  apply set_eq. intros l. rewrite !Labels.foldl_labels.
  specialize (H l). set_solver.
Qed.

(** The ids of one split file. *)
Module SplitIds.
Import StrFacts.

Lemma id_prefix (set_type : string) (data : list Item.t) x :
  x ∈ map InputExample.id_ (create_examples set_type data) -> exists i, x = set_type +:+ "-" +:+ str_of_nat i.
Proof.
  rewrite Ids.create_examples_ids. intros (i & -> & _)%list_elem_of_fmap. eauto.
Qed.

End SplitIds.

(** X11: when the three split files of a data directory are read, the
    ids of all train, dev and test examples are pairwise distinct. *)
Theorem X_split_ids_distinct (fs : gmap string (list Item.t)) (data_dir : string)
    (train dev test : list InputExample.t) :
  DatasetProcessor.get_train_examples fs data_dir = IOk train ->
  DatasetProcessor.get_dev_examples fs data_dir = IOk dev ->
  DatasetProcessor.get_test_examples fs data_dir = IOk test ->
  NoDup (map InputExample.id_ (train ++ dev ++ test)).
Proof.
  unfold DatasetProcessor.get_train_examples, DatasetProcessor.get_dev_examples,
    DatasetProcessor.get_test_examples, DatasetProcessor._create_examples.
  destruct (fs !! _) as [dtr|]; [|discriminate]; intros [= <-].
  destruct (fs !! _) as [ddv|]; [|discriminate]; intros [= <-].
  destruct (fs !! _) as [dte|]; [|discriminate]; intros [= <-].
  rewrite !map_app.
  pose proof (SplitIds.id_prefix "train" dtr) as Ptr.
  pose proof (SplitIds.id_prefix "dev" ddv) as Pdv.
  pose proof (SplitIds.id_prefix "test" dte) as Pte.
  apply NoDup_app. split; [apply Ids.ids_distinct|]. split.
  - intros x Hx [Hy|Hy]%elem_of_app;
      destruct (Ptr x Hx) as [i ->]; [destruct (Pdv _ Hy) as [j Hj]|destruct (Pte _ Hy) as [j Hj]];
      rewrite ?StrFacts.app_cons in Hj; discriminate || (injection Hj as Hj; discriminate).
  - apply NoDup_app. split; [apply Ids.ids_distinct|]. split; [|apply Ids.ids_distinct].
    intros x Hx Hy. destruct (Pdv x Hx) as [i ->]. destruct (Pte _ Hy) as [j Hj].
    rewrite ?StrFacts.app_cons in Hj. discriminate.
Qed.

(** X12: when the training file of a data directory is read,
    [get_label_list] returns a vocabulary with which the training split,
    converted without type ids, never fails, each label indexing its
    example's label. *)
Theorem X_train_split_converts (fs : gmap string (list Item.t)) (data_dir : string)
    (train : list InputExample.t) (tokenizer : Tokenizer) (max_mention_length : nat)
    (use_marker_token : bool) :
  DatasetProcessor.get_train_examples fs data_dir = IOk train ->
  exists label_list feats,
    DatasetProcessor.get_label_list fs data_dir = IOk label_list /\
    convert_examples_to_features tokenizer max_mention_length false use_marker_token
      train label_list = Ok feats /\
    Forall2 (fun ex f => label_list !! InputFeatures.label f = Some (InputExample.label ex)) train feats.
Proof.
  intros Htr. unfold DatasetProcessor.get_label_list. rewrite Htr.
  destruct (Vocab.vocabulary_labels tokenizer max_mention_length false use_marker_token train train)
    as (feats & Hc & Hf).
  { apply Forall_forall. intros ex Hex. split; [right; eauto|discriminate]. }
  exists (get_label_list train), feats. split; [done|]. split; [exact Hc|].
  eapply Forall2_impl; [exact Hf|]. intros ex f [H _]. exact H.
Qed.

(** Witness of X2: adjacent entities, "A" then "B", give "A  B C". *)
Lemma X_text_is_join_witness :
  InputExample.text (create_example "train" 0 adj_item) = "A  B C".
Proof.
  destruct (X_text_is_join "train" 0 adj_item) as [_ H]; simpl; try lia.
  { repeat constructor; discriminate. }
  exact (H 1 (or_introl (conj eq_refl eq_refl))).
Defined.

(** Witness of X11 on [split_files]. *)
Lemma X_split_ids_distinct_witness :
  exists train dev test,
    DatasetProcessor.get_train_examples split_files "data" = IOk train /\
    DatasetProcessor.get_dev_examples split_files "data" = IOk dev /\
    DatasetProcessor.get_test_examples split_files "data" = IOk test /\
    NoDup (map InputExample.id_ (train ++ dev ++ test)).
Proof.
  do 3 eexists.
  assert (DatasetProcessor.get_train_examples split_files "data" =
          IOk (create_examples "train" [john_item; john_item])) as H1 by (vm_compute; reflexivity).
  assert (DatasetProcessor.get_dev_examples split_files "data" =
          IOk (create_examples "dev" [john_item])) as H2 by (vm_compute; reflexivity).
  assert (DatasetProcessor.get_test_examples split_files "data" =
          IOk (create_examples "test" [john_item])) as H3 by (vm_compute; reflexivity).
  split; [exact H1|]. split; [exact H2|]. split; [exact H3|].
  exact (X_split_ids_distinct split_files "data" _ _ _ H1 H2 H3).
Defined.

(** Witness of X12 on [split_files]. *)
Lemma X_train_split_converts_witness :
  exists train label_list feats,
    DatasetProcessor.get_train_examples split_files "data" = IOk train /\
    DatasetProcessor.get_label_list split_files "data" = IOk label_list /\
    convert_examples_to_features space_tokenizer 2 false true train label_list = Ok feats.
Proof.
  assert (DatasetProcessor.get_train_examples split_files "data" =
          IOk (create_examples "train" [john_item; john_item])) as H1 by (vm_compute; reflexivity).
  destruct (X_train_split_converts split_files "data" _ space_tokenizer 2 true H1)
    as (L & feats & HL & Hc & _).
  exists (create_examples "train" [john_item; john_item]), L, feats. auto.
Defined.

(** Witness of X8 on the round-trip example. *)
Lemma X_vocabulary_labels_witness :
  exists fs,
    convert_examples_to_features space_tokenizer 2 true true [john_example] (get_label_list [john_example]) = Ok fs /\
    Forall2 (fun ex f => get_label_list [john_example] !! InputFeatures.label f = Some (InputExample.label ex) /\
      (InputFeatures.label f = 0 <-> InputExample.label ex = "no_relation")) [john_example] fs.
Proof.
  apply (X_vocabulary_labels space_tokenizer 2 true true [john_example] [john_example]).
  constructor; [|constructor]. split.
  - right. exists john_example. split; [by apply elem_of_cons; left|done].
  - intros _. split; apply (bool_decide_unpack _); vm_compute; reflexivity.
Defined.

(** Witness of X10: a reordered training list with a repetition. *)
Lemma X_label_list_label_set_witness :
  get_label_list [john_example; adj_example] = get_label_list [adj_example; john_example; adj_example].
Proof.
  apply X_label_list_label_set. intros l.
  split; intros (ex & Hex & Hl); exists ex; split; try exact Hl;
    apply list_elem_of_In in Hex; apply list_elem_of_In; simpl in *; tauto.
Defined.


(** Witness of X6 on the round-trip example. *)
Lemma X_entity_ids_witness :
  exists fs, convert_examples_to_features space_tokenizer 2 true true [john_example] john_labels = Ok fs /\
    Forall2 (fun ex f =>
      exists ka kb, ENTITY_TYPES !! ka = Some (InputExample.type_a ex) /\
        ENTITY_TYPES !! kb = Some (InputExample.type_b ex) /\
        InputFeatures.entity_ids f = [Z.of_nat (ka + 1); Z.of_nat (kb + 1)]) [john_example] fs.
Proof.
  set (r := convert_examples_to_features space_tokenizer 2 true true [john_example] john_labels).
  exists (match r with Ok fs => fs | Raise _ => [] end).
  assert (r = Ok (match r with Ok fs => fs | Raise _ => [] end)) as Hr by (vm_compute; reflexivity).
  split; [exact Hr|].
  exact (X_entity_ids space_tokenizer 2 true true [john_example] john_labels _ Hr).
Defined.

(** Witness of X7 on the round-trip example. *)
Lemma X_positions_inside_witness :
  exists fs, convert_examples_to_features space_tokenizer 2 true true [john_example] john_labels = Ok fs /\
    Forall (fun f =>
      Forall (fun ids => Forall (fun p => p = (-1)%Z \/
          (1 <= p /\ p + 2 <= Z.of_nat (length (InputFeatures.word_attention_mask f)))%Z) ids)
        (InputFeatures.entity_position_ids f)) fs.
Proof.
  set (r := convert_examples_to_features space_tokenizer 2 true true [john_example] john_labels).
  exists (match r with Ok fs => fs | Raise _ => [] end).
  assert (r = Ok (match r with Ok fs => fs | Raise _ => [] end)) as Hr by (vm_compute; reflexivity).
  split; [exact Hr|].
  exact (X_positions_inside space_tokenizer 2 true true [john_example] john_labels _ Hr).
Defined.
